(** * dataset-builder.py: issue / pull-request dataset builder

    A shallow embedding of [Data Mining and Dataset/dataset-builder.py]
    and the properties of its reference extraction, change-set scan,
    issue-centric inversion, enrichment, cache round trip, row
    flattening and per-repository pipeline.

    Conventions of the embedding.
    - The description of a pull request, which is lower-cased and
      matched, is the list of its code points ([Text.t]); what the
      matching needs of the Unicode database above 127 is a parameter
      ([Unicode]).
    - Every other Python [str] is only copied, joined, stripped of
      blanks and bars or searched for the line feed, and is a [string].
    - A Python [int] is a [Z].
    - A [dict] is an association list in insertion order with unique keys
      ([Dict.get], [Dict.set]); a key that is absent from a record-like
      dict is an [option] field that is [None].
    - A call that may raise returns a [result];
      [try ... except Exception] is [catch]. *)

From Stdlib Require Import List String Ascii ZArith NArith Lia Bool Arith.
From Stdlib Require Import DecimalString DecimalPos DecimalZ.
Import ListNotations.

(* ================================================================== *)
(** ** Exceptions *)

(** The outcome of a call that may raise an [Exception]. *)
Inductive result (A : Type) : Type :=
| Ok (a : A)
| Raise (e : string).

Arguments Ok {A} a.
Arguments Raise {A} e.

Definition bind {A B : Type} (c : result A) (k : A -> result B) : result B :=
  match c with
  | Ok a => k a
  | Raise e => Raise e
  end.

Notation "x <- c ;; k" := (bind c (fun x => k))
  (at level 61, c at next level, right associativity).

(** [try: c  except Exception as e: handler e] *)
Definition catch {A : Type} (c : result A) (handler : string -> A) : A :=
  match c with
  | Ok a => a
  | Raise e => handler e
  end.

(** [x if x else d] for a value that may be [None]. *)
Definition or_default {A : Type} (x : option A) (d : A) : A :=
  match x with Some a => a | None => d end.

(* ================================================================== *)
(** ** Strings that are only copied and joined *)

Module Str.

Local Open Scope char_scope.

Definition chars (s : string) : list ascii := list_ascii_of_string s.

(** [sep.join(parts)] *)
Fixpoint join (sep : string) (parts : list string) : string :=
  match parts with
  | [] => EmptyString
  | [p] => p
  | p :: ps => p ++ sep ++ join sep ps
  end.

(** [s.replace(old, new)] for a one-character [old]. *)
Fixpoint replace (old : ascii) (new : string) (s : string) : string :=
  match s with
  | EmptyString => EmptyString
  | String c s' =>
      if Ascii.eqb c old then new ++ replace old new s'
      else String c (replace old new s')
  end.

Fixpoint mem (c : ascii) (s : string) : bool :=
  match s with
  | EmptyString => false
  | String d s' => Ascii.eqb c d || mem c s'
  end.

(** [s.lstrip(chars)]: drops the longest prefix of [s] made of
    characters that occur in [chars]; [chars] is a set of characters,
    not a prefix. *)
Fixpoint lstrip (cs : string) (s : string) : string :=
  match s with
  | EmptyString => EmptyString
  | String c s' => if mem c cs then lstrip cs s' else s
  end.

(** [s.removeprefix(p)]: [s] without one leading occurrence of [p]. *)
Definition removeprefix (p s : string) : string :=
  if prefix p s
  then substring (String.length p) (String.length s - String.length p) s
  else s.

(** [str(n)] for an [int]. *)
Definition of_Z (n : Z) : string := NilZero.string_of_int (Z.to_int n).

(** [bool(s)] of a string: non-empty. *)
Definition truthy (s : string) : bool :=
  match s with EmptyString => false | _ => true end.

End Str.

(* ================================================================== *)
(** ** Texts that are matched

    The description of a pull request is lower-cased and searched with
    regular expressions, which work on the code points of the text and
    on the Unicode database of the interpreter. *)

Module Text.

Local Open Scope N_scope.

(** A text is the list of its code points. *)
Definition t := list N.

(** An ASCII text, as the literals of the source are. *)
Definition of_string (s : string) : t := map N_of_ascii (list_ascii_of_string s).

(** [\s] and [str.isspace]: the white space of ASCII and of the
    database. *)
Definition is_space (c : N) : bool :=
  ((9 <=? c) && (c <=? 13)) || ((28 <=? c) && (c <=? 32))
  || (c =? 133) || (c =? 160) || (c =? 5760)
  || ((8192 <=? c) && (c <=? 8202))
  || (c =? 8232) || (c =? 8233) || (c =? 8239) || (c =? 8287) || (c =? 12288).

(** [\d] and [str.isdecimal] for a table [dec] of the decimal digits
    above 127. *)
Definition digit_in (dec : N -> option N) (c : N) : bool :=
  if c <? 128 then (48 <=? c) && (c <=? 57)
  else match dec c with Some _ => true | None => false end.

(** What the matching consults of the database for the code points above
    127: the value of a decimal digit (category Nd), the full lower-case
    mapping, and the test of the Final_Sigma context, which the
    lower-casing asks for a capital sigma (931) with the text before it
    (nearest code point first) and the text after it.  The tables of
    every version of the database have the four properties: white space
    and decimal digits have no case, the capital sigma is no digit, and
    lower-casing a code point that is no digit gives a text that is not
    empty and does not start with a digit. *)
Class Unicode := {
  decimal : N -> option N;
  lower_full : N -> list N;
  final_sigma : list N -> list N -> bool;
  lower_space : forall c, is_space c = true -> lower_full c = [c];
  lower_decimal : forall c, decimal c <> None -> c <> 931 /\ lower_full c = [c];
  lower_other : forall c, 128 <= c -> decimal c = None ->
    exists d r, lower_full c = d :: r /\ digit_in decimal d = false;
  sigma_other : digit_in decimal 962 = false /\ digit_in decimal 963 = false
}.

Section Tables.

Context `{Unicode}.

(** [\d]: the decimal digits of ASCII and of the database. *)
Definition is_digit (c : N) : bool := digit_in decimal c.

(** The value of a decimal digit. *)
Definition digit_value (c : N) : N :=
  if c <? 128 then c - 48
  else match decimal c with Some v => v | None => 0 end.

(** The lower case of a code point other than the capital sigma. *)
Definition lower_char (c : N) : list N :=
  if c <? 128 then [if (65 <=? c) && (c <=? 90) then c + 32 else c]
  else lower_full c.

(** [str.lower()] from a position of the text: the capital sigma
    becomes the final sigma (962) in the Final_Sigma context and the
    small sigma (963) elsewhere. *)
Fixpoint lower_from (before s : t) : t :=
  match s with
  | [] => []
  | c :: rest =>
      ((if c =? 931 then [if final_sigma before rest then 962 else 963]
        else lower_char c)
       ++ lower_from (c :: before) rest)%list
  end.

(** [str.lower()] *)
Definition lower (s : t) : t := lower_from [] s.

End Tables.

(** [needle in s] *)
Fixpoint starts_with (p s : t) : bool :=
  match p, s with
  | [], _ => true
  | c :: p', d :: s' => (c =? d) && starts_with p' s'
  | _ :: _, [] => false
  end.

Fixpoint contains_chars (p s : t) : bool :=
  starts_with p s ||
  match s with
  | [] => false
  | _ :: s' => contains_chars p s'
  end.

Definition contains (needle : string) (s : t) : bool :=
  contains_chars (of_string needle) s.

End Text.

Abbreviation Unicode := Text.Unicode.

(** The tables of a database that has no decimal digit and no case
    mapping above 127.  On a text of ASCII code points the definitions
    never consult the tables, so the samples below are evaluated with
    these. *)
#[export] Instance ascii_only : Unicode.
Proof.
  refine {| Text.decimal := fun _ => None;
            Text.lower_full := fun c => [c];
            Text.final_sigma := fun _ _ => false |}.
  - reflexivity.
  - intros c Hc. now contradiction Hc.
  - intros c Hc _. exists c, []. split; [reflexivity|].
    unfold Text.digit_in. apply N.ltb_ge in Hc. now rewrite Hc.
  - split; reflexivity.
Defined.

(* ================================================================== *)
(** ** Reference extraction (lines 152-155 and 170-175) *)

Module Regex.

Local Open Scope N_scope.

(** Both entries of [closing_patterns] have the shape
    [(?:k1|k2|...)[\s:]+#(\d+)]; a pattern is its list of alternatives. *)
Definition pattern := list string.

(** The default of [sys.get_int_max_str_digits()]. *)
Definition INT_MAX_STR_DIGITS : nat := 4300.

(** Greedy run of a character class: the run and what follows it. *)
Fixpoint span (f : N -> bool) (s : Text.t) : Text.t * Text.t :=
  match s with
  | [] => ([], [])
  | c :: s' =>
      if f c then let (a, b) := span f s' in (c :: a, b)
      else ([], s)
  end.

(** A literal at the head of the text. *)
Fixpoint strip_prefix (p s : Text.t) : option Text.t :=
  match p, s with
  | [], _ => Some s
  | c :: p', d :: s' => if c =? d then strip_prefix p' s' else None
  | _ :: _, [] => None
  end.

(** [[\s:]]: white space or the colon (58). *)
Definition is_sep (c : N) : bool := Text.is_space c || (c =? 58).

Section Matcher.

Context `{Unicode}.

(** [[\s:]+#(\d+)] at the head of the text ([#] is 35): the captured
    digits and the rest.  The three classes are pairwise disjoint, so the
    greedy runs are never shortened by backtracking. *)
Definition match_tail (s : Text.t) : option (Text.t * Text.t) :=
  let (seps, r) := span is_sep s in
  match seps, r with
  | _ :: _, c :: r' =>
      if c =? 35 then
        let (ds, r'') := span Text.is_digit r' in
        match ds with
        | _ :: _ => Some (ds, r'')
        | [] => None
        end
      else None
  | _, _ => None
  end.

(** The alternation is tried left to right; an alternative whose
    continuation fails is abandoned for the next one. *)
Fixpoint match_alt (alts : list Text.t) (s : Text.t)
  : option (Text.t * Text.t) :=
  match alts with
  | [] => None
  | kw :: alts' =>
      match strip_prefix kw s with
      | Some r =>
          match match_tail r with
          | Some res => Some res
          | None => match_alt alts' s
          end
      | None => match_alt alts' s
      end
  end.

(** [re.findall]: leftmost matches, not overlapping.  [skip] counts the
    code points of the last match that are still to be passed over. *)
Fixpoint findall_from (alts : list Text.t) (skip : nat) (s : Text.t)
  : list Text.t :=
  match s with
  | [] => []
  | _ :: s' =>
      match skip with
      | S k => findall_from alts k s'
      | O =>
          match match_alt alts s with
          | Some (ds, rest) =>
              ds :: findall_from alts (List.length s' - List.length rest) s'
          | None => findall_from alts 0 s'
          end
      end
  end.

Definition findall (p : pattern) (text : Text.t) : list Text.t :=
  findall_from (map Text.of_string p) 0 text.

(** The number written by a run of decimal digits. *)
Definition int_of_digits (ds : Text.t) : Z :=
  fold_left (fun acc d => (10 * acc + Z.of_N (Text.digit_value d))%Z) ds 0%Z.

(** [int(match)]: the conversion raises [ValueError] on more digits than
    the limit, leading zeros included. *)
Definition int_of_match (ds : Text.t) : result Z :=
  if (INT_MAX_STR_DIGITS <? List.length ds)%nat
  then Raise ("Exceeds the limit (4300 digits) for integer string conversion: value has "
              ++ Str.of_Z (Z.of_nat (List.length ds))
              ++ " digits; use sys.set_int_max_str_digits() to increase the limit")%string
  else Ok (int_of_digits ds).

(** The conversions of line 174 in order: the first that raises ends
    them. *)
Fixpoint convert_all (runs : list Text.t) : result (list Z) :=
  match runs with
  | [] => Ok []
  | ds :: rest =>
      n <- int_of_match ds ;;
      ns <- convert_all rest ;;
      Ok (n :: ns)
  end.

End Matcher.

End Regex.

Local Open Scope string_scope.

Definition closing_patterns : list Regex.pattern :=
  [ ["close"; "closes"; "closed"; "fix"; "fixes"; "fixed";
     "resolve"; "resolves"; "resolved"];
    ["issue"; "issues"] ].

(** The words that can start a match. *)
Definition trigger_phrases : list string := List.concat closing_patterns.

(** Line 172 for every pattern in turn: the runs of digits captured in
    the lower-cased text. *)
Definition captured_runs `{Unicode} (body : Text.t) : list Text.t :=
  flat_map (fun pattern => Regex.findall pattern (Text.lower body))
           closing_patterns.

(** Lines 171-175: every capture converted and appended; a conversion
    that raises leaves the loops. *)
Definition extract_references `{Unicode} (body : Text.t) : result (list Z) :=
  Regex.convert_all (captured_runs body).

(* ================================================================== *)
(** ** Dictionaries *)

Module Dict.
Section Dict.
Variable V : Type.

Definition t := list (Z * V).

Fixpoint get (k : Z) (d : t) : option V :=
  match d with
  | [] => None
  | (k', v) :: d' => if (k =? k')%Z then Some v else get k d'
  end.

Definition mem (k : Z) (d : t) : bool :=
  match get k d with Some _ => true | None => false end.

(** [d[k] = v]: a key already present keeps its place. *)
Fixpoint set (k : Z) (v : V) (d : t) : t :=
  match d with
  | [] => [(k, v)]
  | (k', v') :: d' =>
      if (k =? k')%Z then (k, v) :: d' else (k', v') :: set k v d'
  end.

(** In-place mutation of the value stored at [k]. *)
Fixpoint update (k : Z) (f : V -> V) (d : t) : t :=
  match d with
  | [] => []
  | (k', v') :: d' =>
      if (k =? k')%Z then (k', f v') :: d' else (k', v') :: update k f d'
  end.

Definition keys (d : t) : list Z := map fst d.
Definition values (d : t) : list V := map snd d.
End Dict.

Arguments get {V} k d.
Arguments mem {V} k d.
Arguments set {V} k v d.
Arguments update {V} k f d.
Arguments keys {V} d.
Arguments values {V} d.
End Dict.

(* ================================================================== *)
(** ** The remote source (PyGithub objects) *)

Module File.
Record t := mk {
  filename : string;
  additions : Z;
  deletions : Z;
  changes : Z;
  status : string;
  patch : option string
}.
End File.

Module Commit.
(** [author] is the login of [commit.author], [None] when the commit
    has no attributable author. *)
Record t := mk {
  message : string;
  author : option string
}.
End Commit.

Module Issue.
(** Timestamps are kept as their [isoformat()] text. *)
Record t := mk {
  title : string;
  body : option string;
  get_comments : result (list string);
  state : string;
  created_at : option string;
  closed_at : option string;
  user : option string;
  labels : list string
}.
End Issue.

Module PullRequest.
Record t := mk {
  number : Z;
  title : string;
  user : option string;
  merged : bool;
  merged_at : option string;
  merged_by : option string;
  body : option Text.t;
  get_files : result (list File.t);
  get_commits : result (list Commit.t)
}.
End PullRequest.

Module Repository.
(** [get_pulls] is the listing
    [get_pulls(state='closed', sort='updated', direction='desc')]. *)
Record t := mk {
  get_pulls : list PullRequest.t;
  get_issue : Z -> result Issue.t;
  get_pull : Z -> result PullRequest.t
}.
End Repository.

(* ================================================================== *)
(** ** Fetching functions (lines 50-138) *)

Definition COMMENT_DELIMITER : string := " || ".
Definition FILE_CHANGE_DELIMITER : string := " || ".
Definition COMMIT_MSG_DELIMITER : string := " || ".
Definition PATCH_NEWLINE_DELIMITER : string := "|;|".

(** The line feed character. *)
Definition LF : ascii := ascii_of_nat 10.

Module IssueDetails.
Record t := mk {
  body : string;
  comments : string;
  state : string;
  created_at : string;
  closed_at : string;
  opened_by : string;
  labels : string
}.
Definition empty : t := mk "" "" "" "" "" "" "".
End IssueDetails.

(** The [try] block of [get_issue_details]. *)
Definition get_issue_details_try (repo : Repository.t) (issue_number : Z)
  : result IssueDetails.t :=
  issue <- Repository.get_issue repo issue_number ;;
  let body := match Issue.body issue with
              | Some b => if Str.truthy b then b else ""
              | None => ""
              end in
  comments <- Issue.get_comments issue ;;
  let combined_comments := Str.join COMMENT_DELIMITER comments in
  Ok {| IssueDetails.body := body;
        IssueDetails.comments := combined_comments;
        IssueDetails.state := Issue.state issue;
        IssueDetails.created_at := or_default (Issue.created_at issue) "";
        IssueDetails.closed_at := or_default (Issue.closed_at issue) "";
        IssueDetails.opened_by := or_default (Issue.user issue) "";
        IssueDetails.labels := Str.join ", " (Issue.labels issue) |}.

Definition get_issue_details (repo : Repository.t) (issue_number : Z)
  : IssueDetails.t :=
  catch (get_issue_details_try repo issue_number)
        (fun _ => IssueDetails.empty).

Module FileChange.
Record t := mk {
  filename : string;
  additions : Z;
  deletions : Z;
  changes : Z;
  status : string;
  patch : string
}.
End FileChange.

Definition file_change_of (f : File.t) : FileChange.t :=
  {| FileChange.filename := File.filename f;
     FileChange.additions := File.additions f;
     FileChange.deletions := File.deletions f;
     FileChange.changes := File.changes f;
     FileChange.status := File.status f;
     FileChange.patch :=
       match File.patch f with
       | Some p => if Str.truthy p
                   then Str.replace LF PATCH_NEWLINE_DELIMITER p else ""
       | None => ""
       end |}.

Definition fetch_pr_file_changes_try (repo : Repository.t) (pr_number : Z)
  : result (list FileChange.t) :=
  pr <- Repository.get_pull repo pr_number ;;
  files <- PullRequest.get_files pr ;;
  Ok (map file_change_of files).

Definition fetch_pr_file_changes (repo : Repository.t) (pr_number : Z)
  : list FileChange.t :=
  catch (fetch_pr_file_changes_try repo pr_number) (fun _ => []).

Definition fetch_commit_messages_try (repo : Repository.t) (pr_number : Z)
  : result string :=
  pr <- Repository.get_pull repo pr_number ;;
  commits <- PullRequest.get_commits pr ;;
  Ok (Str.join COMMIT_MSG_DELIMITER (map Commit.message commits)).

Definition fetch_commit_messages (repo : Repository.t) (pr_number : Z)
  : string :=
  catch (fetch_commit_messages_try repo pr_number) (fun _ => "").

(** [contributors.add(login)] on a set kept as a duplicate-free list, in
    order of insertion.  The iteration order of a Python set is
    unspecified: the theorems below speak of the elements only, and a
    sample that shows a list of contributors shows one possible order. *)
Definition set_add (x : string) (s : list string) : list string :=
  if existsb (String.eqb x) s then s else s ++ [x].

Definition add_author (contributors : list string) (commit : Commit.t)
  : list string :=
  match Commit.author commit with
  | Some login => if Str.truthy login then set_add login contributors
                  else contributors
  | None => contributors
  end.

Definition get_pr_contributors_try (repo : Repository.t) (pr_number : Z)
  : result (list string) :=
  pr <- Repository.get_pull repo pr_number ;;
  commits <- PullRequest.get_commits pr ;;
  Ok (fold_left add_author commits []).

Definition get_pr_contributors (repo : Repository.t) (pr_number : Z)
  : list string :=
  catch (get_pr_contributors_try repo pr_number) (fun _ => []).

(** One entry of [format_file_changes]. *)
Definition format_entry (pr_number : Z) (change : FileChange.t) : string :=
  "PR#" ++ Str.of_Z pr_number ++ " - " ++ FileChange.filename change
        ++ ": " ++ FileChange.patch change.

Definition format_file_changes (pr_number : Z) (file_changes : list FileChange.t)
  : string :=
  Str.join FILE_CHANGE_DELIMITER (map (format_entry pr_number) file_changes).

(* ================================================================== *)
(** ** Step 1: the scan of merged pull requests (lines 146-182) *)

Module PrInfo.
Record t := mk {
  number : Z;
  title : string;
  author : string;
  merged_at : option string;
  merged_by : option string;
  referenced_issues : list Z
}.
End PrInfo.

Record scan_state := mk_scan {
  pr_issue_mapping : Dict.t PrInfo.t;
  processed_count : Z
}.

Inductive flow := Continue | Break.

(** Lines 170-175. *)
Definition referenced_issues_of `{Unicode} (body : option Text.t)
  : result (list Z) :=
  match body with
  | Some (c :: b) => extract_references (c :: b)
  | Some [] => Ok []
  | None => Ok []
  end.

(** One iteration of the loop of line 157.  After the counter is
    incremented the body of the [try] raises when the pull request has
    no user ([pr.user.login]) and when a conversion of line 174 raises;
    the handler of line 180 then goes on to the next pull request
    without storing anything and without reaching the test of line
    178. *)
Definition scan_step `{Unicode} (max_prs : Z) (pr : PullRequest.t)
  (st : scan_state) : scan_state * flow :=
  if negb (PullRequest.merged pr) then (st, Continue)
  else
    let count := (processed_count st + 1)%Z in
    match PullRequest.user pr with
    | None => (mk_scan (pr_issue_mapping st) count, Continue)
    | Some login =>
        match referenced_issues_of (PullRequest.body pr) with
        | Raise _ => (mk_scan (pr_issue_mapping st) count, Continue)
        | Ok referenced_issues =>
            let pr_info :=
              {| PrInfo.number := PullRequest.number pr;
                 PrInfo.title := PullRequest.title pr;
                 PrInfo.author := login;
                 PrInfo.merged_at := PullRequest.merged_at pr;
                 PrInfo.merged_by := PullRequest.merged_by pr;
                 PrInfo.referenced_issues := referenced_issues |} in
            let mapping :=
              match PrInfo.referenced_issues pr_info with
              | [] => pr_issue_mapping st
              | _ :: _ =>
                  Dict.set (PullRequest.number pr) pr_info (pr_issue_mapping st)
              end in
            (mk_scan mapping count,
             if (count >=? max_prs)%Z then Break else Continue)
        end
    end.

(** The loop: the final state and the pull requests never looked at. *)
Fixpoint scan_loop `{Unicode} (max_prs : Z) (prs : list PullRequest.t)
  (st : scan_state) : scan_state * list PullRequest.t :=
  match prs with
  | [] => (st, [])
  | pr :: rest =>
      match scan_step max_prs pr st with
      | (st', Break) => (st', rest)
      | (st', Continue) => scan_loop max_prs rest st'
      end
  end.

Definition scan `{Unicode} (repo : Repository.t) (max_prs : Z)
  : scan_state * list PullRequest.t :=
  scan_loop max_prs (Repository.get_pulls repo) (mk_scan [] 0).

(** The pull requests of a listing that are merged. *)
Definition merged_count (prs : list PullRequest.t) : nat :=
  List.length (filter PullRequest.merged prs).

(** A merged pull request on which the body of the loop raises. *)
Definition raises `{Unicode} (pr : PullRequest.t) : bool :=
  PullRequest.merged pr &&
  (match PullRequest.user pr with None => true | Some _ => false end
   || match referenced_issues_of (PullRequest.body pr) with
      | Raise _ => true
      | Ok _ => false
      end).

(* ================================================================== *)
(** ** Step 2: the issue-centric mapping (lines 184-203) *)

Module LinkedPR.
(** [file_changes] and [commit_messages] are the keys added by step 3. *)
Record t := mk {
  number : Z;
  title : string;
  merged_at : option string;
  merged_by : option string;
  file_changes : option string;
  commit_messages : option string
}.
End LinkedPR.

Module IssueMeta.
(** The keys set by the [update] of line 209 besides [title]. *)
Record t := mk {
  labels : list string;
  state : string;
  created_at : string;
  closed_at : string;
  opened_by : string
}.
End IssueMeta.

Module IssueNode.
(** [meta] is [None] while the keys of [IssueMeta] are absent. *)
Record t := mk {
  issue_number : Z;
  title : option string;
  linked_prs : list LinkedPR.t;
  solvers : list string;
  file_changes : list string;
  commit_messages : string;
  meta : option IssueMeta.t
}.

Definition fresh (issue_number : Z) : t :=
  mk issue_number None [] [] [] "" None.

Definition with_linked_prs (l : list LinkedPR.t) (n : t) : t :=
  mk (issue_number n) (title n) l (solvers n) (file_changes n)
     (commit_messages n) (meta n).
End IssueNode.

Definition stub_of (pr_data : PrInfo.t) : LinkedPR.t :=
  {| LinkedPR.number := PrInfo.number pr_data;
     LinkedPR.title := PrInfo.title pr_data;
     LinkedPR.merged_at := PrInfo.merged_at pr_data;
     LinkedPR.merged_by := PrInfo.merged_by pr_data;
     LinkedPR.file_changes := None;
     LinkedPR.commit_messages := None |}.

(** Lines 188-203: one reference of one pull request. *)
Definition add_link (pr_data : PrInfo.t)
  (issue_solver_data : Dict.t IssueNode.t) (issue_number : Z)
  : Dict.t IssueNode.t :=
  let d :=
    if Dict.mem issue_number issue_solver_data then issue_solver_data
    else Dict.set issue_number (IssueNode.fresh issue_number) issue_solver_data in
  Dict.update issue_number
    (fun node =>
       IssueNode.with_linked_prs (IssueNode.linked_prs node ++ [stub_of pr_data]) node)
    d.

Definition add_links (issue_solver_data : Dict.t IssueNode.t)
  (item : Z * PrInfo.t) : Dict.t IssueNode.t :=
  fold_left (add_link (snd item)) (PrInfo.referenced_issues (snd item))
            issue_solver_data.

Definition invert (pr_issue_mapping : Dict.t PrInfo.t) : Dict.t IssueNode.t :=
  fold_left add_links pr_issue_mapping [].

(** The stubs of an issue that point to a given pull request. *)
Definition stubs_for (pr_number : Z) (node : IssueNode.t) : list LinkedPR.t :=
  filter (fun l => (LinkedPR.number l =? pr_number)%Z) (IssueNode.linked_prs node).

Definition linked_stubs (issue_solver_data : Dict.t IssueNode.t)
  (issue_number pr_number : Z) : list LinkedPR.t :=
  match Dict.get issue_number issue_solver_data with
  | Some node => stubs_for pr_number node
  | None => []
  end.

(* ================================================================== *)
(** ** Step 3: enrichment (lines 205-238) *)

(** Lines 208-218. *)
Definition enrich_meta (repo : Repository.t) (node : IssueNode.t) : IssueNode.t :=
  catch
    (issue <- Repository.get_issue repo (IssueNode.issue_number node) ;;
     Ok {| IssueNode.issue_number := IssueNode.issue_number node;
           IssueNode.title := Some (Issue.title issue);
           IssueNode.linked_prs := IssueNode.linked_prs node;
           IssueNode.solvers := IssueNode.solvers node;
           IssueNode.file_changes := IssueNode.file_changes node;
           IssueNode.commit_messages := IssueNode.commit_messages node;
           IssueNode.meta :=
             Some {| IssueMeta.labels := Issue.labels issue;
                     IssueMeta.state := Issue.state issue;
                     IssueMeta.created_at := or_default (Issue.created_at issue) "";
                     IssueMeta.closed_at := or_default (Issue.closed_at issue) "";
                     IssueMeta.opened_by := or_default (Issue.user issue) "" |} |})
    (fun _ => node).

(** What the loop of line 221 has accumulated so far. *)
Record linked_acc := mk_acc {
  acc_prs : list LinkedPR.t;
  acc_solvers : list string;
  acc_file_changes : list string;
  acc_commit_messages : string
}.

(** Lines 222-234: one linked pull request. *)
Definition enrich_pr (repo : Repository.t) (acc : linked_acc) (pr_info : LinkedPR.t)
  : linked_acc :=
  let pr_number := LinkedPR.number pr_info in
  let file_changes := fetch_pr_file_changes repo pr_number in
  let formatted_changes := format_file_changes pr_number file_changes in
  let commit_msgs := fetch_commit_messages repo pr_number in
  let pr_info' :=
    {| LinkedPR.number := LinkedPR.number pr_info;
       LinkedPR.title := LinkedPR.title pr_info;
       LinkedPR.merged_at := LinkedPR.merged_at pr_info;
       LinkedPR.merged_by := LinkedPR.merged_by pr_info;
       LinkedPR.file_changes := Some formatted_changes;
       LinkedPR.commit_messages := Some commit_msgs |} in
  let solvers := get_pr_contributors repo pr_number in
  {| acc_prs := acc_prs acc ++ [pr_info'];
     acc_solvers := fold_left (fun s x => set_add x s) solvers (acc_solvers acc);
     acc_file_changes := acc_file_changes acc ++ [formatted_changes];
     acc_commit_messages :=
       acc_commit_messages acc ++
       (if Str.truthy commit_msgs then COMMIT_MSG_DELIMITER ++ commit_msgs else "") |}.

(** Lines 207-236: one issue. *)
Definition enrich_issue (repo : Repository.t) (node : IssueNode.t) : IssueNode.t :=
  let node1 := enrich_meta repo node in
  let acc :=
    fold_left (enrich_pr repo) (IssueNode.linked_prs node1)
      (mk_acc [] (IssueNode.solvers node1) (IssueNode.file_changes node1)
              (IssueNode.commit_messages node1)) in
  {| IssueNode.issue_number := IssueNode.issue_number node1;
     IssueNode.title := IssueNode.title node1;
     IssueNode.linked_prs := acc_prs acc;
     IssueNode.solvers := acc_solvers acc;
     IssueNode.file_changes := acc_file_changes acc;
     IssueNode.commit_messages := acc_commit_messages acc;
     IssueNode.meta := IssueNode.meta node1 |}.

Definition enrich (repo : Repository.t) (issue_solver_data : Dict.t IssueNode.t)
  : Dict.t IssueNode.t :=
  map (fun item => (fst item, enrich_issue repo (snd item))) issue_solver_data.

Definition build_issue_solver_data `{Unicode} (repo : Repository.t)
  (max_prs : Z) : Dict.t IssueNode.t :=
  enrich repo (invert (pr_issue_mapping (fst (scan repo max_prs)))).

(* ================================================================== *)
(** ** Rows (lines 241-276) *)

Module Row.
Record t := mk {
  repo_name : string;
  contributor_id : string;
  issue_id : Z;
  issue_title : option string;
  issue_body : string;
  issue_comments : string;
  issue_state : string;
  issue_created_at : string;
  issue_closed_at : string;
  opened_by : string;
  issue_labels : string;
  linked_pr_count : nat;
  modified_source_files : string;
  commit_messages : string
}.
End Row.

(** [issue_data.get(key, "")] for a key of [IssueMeta]. *)
Definition meta_get (issue_data : IssueNode.t) (field : IssueMeta.t -> string)
  : string :=
  match IssueNode.meta issue_data with
  | Some m => field m
  | None => ""
  end.

Definition labels_get (issue_data : IssueNode.t) : list string :=
  match IssueNode.meta issue_data with
  | Some m => IssueMeta.labels m
  | None => []
  end.

(** Lines 253-255. *)
Definition solvers_or_unknown (issue_data : IssueNode.t) : list string :=
  match IssueNode.solvers issue_data with
  | [] => ["unknown"]
  | _ :: _ => IssueNode.solvers issue_data
  end.

(** The body of the loop of line 247: the rows of one issue. *)
Definition rows_of_issue (repo : Repository.t) (repo_name : string)
  (issue_data : IssueNode.t) : list Row.t :=
  let linked_pr_count := List.length (IssueNode.linked_prs issue_data) in
  let modified_files :=
    Str.join FILE_CHANGE_DELIMITER (IssueNode.file_changes issue_data) in
  let commit_messages :=
    Str.lstrip COMMIT_MSG_DELIMITER (IssueNode.commit_messages issue_data) in
  let solvers := solvers_or_unknown issue_data in
  let issue_details := get_issue_details repo (IssueNode.issue_number issue_data) in
  map (fun solver =>
         {| Row.repo_name := repo_name;
            Row.contributor_id := solver;
            Row.issue_id := IssueNode.issue_number issue_data;
            Row.issue_title := IssueNode.title issue_data;
            Row.issue_body := IssueDetails.body issue_details;
            Row.issue_comments := IssueDetails.comments issue_details;
            Row.issue_state := meta_get issue_data IssueMeta.state;
            Row.issue_created_at := meta_get issue_data IssueMeta.created_at;
            Row.issue_closed_at := meta_get issue_data IssueMeta.closed_at;
            Row.opened_by := meta_get issue_data IssueMeta.opened_by;
            Row.issue_labels :=
              match labels_get issue_data with
              | [] => ""
              | _ :: _ => Str.join ", " (labels_get issue_data)
              end;
            Row.linked_pr_count := linked_pr_count;
            Row.modified_source_files := modified_files;
            Row.commit_messages := commit_messages |})
      solvers.

(** The keys of the mapping are not used: they are integers after a
    build and strings after a cache load. *)
Definition generate_csv_rows {K : Type} (issue_solver_data : list (K * IssueNode.t))
  (repo : Repository.t) (repo_name : string) : list Row.t :=
  flat_map (fun item => rows_of_issue repo repo_name (snd item)) issue_solver_data.

(** The rows of the output that belong to an issue. *)
Definition rows_for (issue_number : Z) (rows : list Row.t) : list Row.t :=
  filter (fun r => (Row.issue_id r =? issue_number)%Z) rows.

(* ================================================================== *)
(** ** The cache artifact (lines 291-304) *)

Module Json.

#[local] Unset Elimination Schemes.

(** Python values that occur in the issue mapping. *)
Inductive key :=
| KInt (n : Z)
| KStr (s : string).

Inductive value :=
| VNone
| VInt (n : Z)
| VStr (s : string)
| VList (l : list value)
| VDict (d : list (key * value)).

(** A JSON document: the keys of an object are strings. *)
Inductive json :=
| JNull
| JNum (n : Z)
| JStr (s : string)
| JArr (l : list json)
| JObj (d : list (string * json)).

(** [json.dump] coerces every dictionary key to [str]. *)
Definition key_text (k : key) : string :=
  match k with
  | KInt n => Str.of_Z n
  | KStr s => s
  end.

Fixpoint dump (v : value) : json :=
  match v with
  | VNone => JNull
  | VInt n => JNum n
  | VStr s => JStr s
  | VList l => JArr (map dump l)
  | VDict d => JObj (map (fun kv => (key_text (fst kv), dump (snd kv))) d)
  end.

(** [json.load] on a document in which no object repeats a name, as
    [json.dump] writes them: the members of an object become the entries
    of the dictionary, in order.  (For a repeated name [json.load] keeps
    the last value only.) *)
Fixpoint load (j : json) : value :=
  match j with
  | JNull => VNone
  | JNum n => VInt n
  | JStr s => VStr s
  | JArr l => VList (map load l)
  | JObj d => VDict (map (fun kv => (KStr (fst kv), load (snd kv))) d)
  end.



Definition key_eqb (a b : key) : bool :=
  match a, b with
  | KInt m, KInt n => (m =? n)%Z
  | KStr s, KStr t => String.eqb s t
  | _, _ => false
  end.

(** [d.get(k)] on a dictionary value. *)
Fixpoint lookup (k : key) (d : list (key * value)) : option value :=
  match d with
  | [] => None
  | (k', v) :: d' => if key_eqb k k' then Some v else lookup k d'
  end.

Definition of_option (o : option string) : value :=
  match o with Some s => VStr s | None => VNone end.

Definition of_strings (l : list string) : value := VList (map VStr l).

End Json.

Import Json.

Definition linked_pr_value (l : LinkedPR.t) : value :=
  VDict ([ (KStr "number", VInt (LinkedPR.number l));
           (KStr "title", VStr (LinkedPR.title l));
           (KStr "merged_at", of_option (LinkedPR.merged_at l));
           (KStr "merged_by", of_option (LinkedPR.merged_by l)) ]
         ++ match LinkedPR.file_changes l with
            | Some s => [ (KStr "file_changes", VStr s) ]
            | None => []
            end
         ++ match LinkedPR.commit_messages l with
            | Some s => [ (KStr "commit_messages", VStr s) ]
            | None => []
            end).

(** The dictionary of an issue, with the keys in insertion order. *)
Definition issue_node_value (n : IssueNode.t) : value :=
  VDict ([ (KStr "issue_number", VInt (IssueNode.issue_number n));
           (KStr "title", of_option (IssueNode.title n));
           (KStr "linked_prs", VList (map linked_pr_value (IssueNode.linked_prs n)));
           (KStr "solvers", of_strings (IssueNode.solvers n));
           (KStr "file_changes", of_strings (IssueNode.file_changes n));
           (KStr "commit_messages", VStr (IssueNode.commit_messages n)) ]
         ++ match IssueNode.meta n with
            | Some m =>
                [ (KStr "labels", of_strings (IssueMeta.labels m));
                  (KStr "state", VStr (IssueMeta.state m));
                  (KStr "created_at", VStr (IssueMeta.created_at m));
                  (KStr "closed_at", VStr (IssueMeta.closed_at m));
                  (KStr "opened_by", VStr (IssueMeta.opened_by m)) ]
            | None => []
            end).

(** The mapping returned by [build_issue_solver_data] as a Python value:
    the keys are the integers of line 174. *)
Definition issue_map_value (d : Dict.t IssueNode.t) : value :=
  VDict (map (fun item => (KInt (fst item), issue_node_value (snd item))) d).

(** The same mapping with every key replaced by its decimal text. *)
Definition issue_map_value_str (d : Dict.t IssueNode.t) : value :=
  VDict (map (fun item => (KStr (Str.of_Z (fst item)), issue_node_value (snd item))) d).

(** Line 304 followed by line 294 of a later run. *)
Definition cache_round_trip (d : Dict.t IssueNode.t) : value :=
  load (dump (issue_map_value d)).

(* ================================================================== *)
(** ** Well-formed mappings *)

(** A dictionary of pull requests filed under their own numbers. *)
Definition mapping_wf (m : Dict.t PrInfo.t) : Prop :=
  NoDup (Dict.keys m) /\ Forall (fun item => PrInfo.number (snd item) = fst item) m.

(** A dictionary of issues filed under their own numbers. *)
Definition issues_wf (d : Dict.t IssueNode.t) : Prop :=
  NoDup (Dict.keys d)
  /\ Forall (fun item => IssueNode.issue_number (snd item) = fst item) d.

(** How many times the pull requests numbered [pr_number] of a mapping
    refer to an issue. *)
Definition references_to (m : Dict.t PrInfo.t) (issue_number pr_number : Z) : nat :=
  list_sum
    (map (fun item =>
            if (PrInfo.number (snd item) =? pr_number)%Z
            then count_occ Z.eq_dec (PrInfo.referenced_issues (snd item)) issue_number
            else 0%nat)
         m).


(* ================================================================== *)
(** ** Sample data *)

Module Sample.

(** A closed pull request of the listing. *)
Definition pr (number : Z) (merged : bool) (user : option string)
  (body : option string) (commits : list Commit.t) (files : list File.t)
  : PullRequest.t :=
  {| PullRequest.number := number;
     PullRequest.title := "Change " ++ Str.of_Z number;
     PullRequest.user := user;
     PullRequest.merged := merged;
     PullRequest.merged_at := if merged then Some "2024-05-01T10:00:00" else None;
     PullRequest.merged_by := if merged then Some "maintainer" else None;
     PullRequest.body := option_map Text.of_string body;
     PullRequest.get_files := Ok files;
     PullRequest.get_commits := Ok commits |}.

Definition issue (state : string) : Issue.t :=
  {| Issue.title := "Crash on start";
     Issue.body := Some "It crashes.";
     Issue.get_comments := Ok ["Same here"; "Fixed in main"];
     Issue.state := state;
     Issue.created_at := Some "2024-04-01T09:00:00";
     Issue.closed_at := if String.eqb state "closed"
                        then Some "2024-05-01T10:00:00" else None;
     Issue.user := Some "reporter";
     Issue.labels := ["bug"] |}.

(** A repository given by its listing and the state of its issues. *)
Definition repo (pulls : list PullRequest.t) (issue_state : string)
  : Repository.t :=
  {| Repository.get_pulls := pulls;
     Repository.get_issue := fun _ => Ok (issue issue_state);
     Repository.get_pull := fun n =>
       match find (fun p => (PullRequest.number p =? n)%Z) pulls with
       | Some p => Ok p
       | None => Raise "404 Not Found"
       end |}.

(** A repository on which every call fails. *)
Definition unreachable : Repository.t :=
  {| Repository.get_pulls := [];
     Repository.get_issue := fun _ => Raise "503 Service Unavailable";
     Repository.get_pull := fun _ => Raise "503 Service Unavailable" |}.

Definition merged_pr (number : Z) (body : string) : PullRequest.t :=
  pr number true (Some "alice") (Some body) [] [].

Definition unmerged_pr (number : Z) : PullRequest.t :=
  pr number false (Some "bob") (Some "fixes #1") [] [].

(** A merged pull request whose user is missing. *)
Definition ghost_pr (number : Z) : PullRequest.t :=
  pr number true None (Some "fixes #1") [] [].

(** A pull request that names the same issue twice. *)
Definition dup_repo : Repository.t :=
  repo [merged_pr 7 "Fixes #5, closes #5"] "open".

Definition dup_info : PrInfo.t :=
  {| PrInfo.number := 7;
     PrInfo.title := "Change 7";
     PrInfo.author := "alice";
     PrInfo.merged_at := Some "2024-05-01T10:00:00";
     PrInfo.merged_by := Some "maintainer";
     PrInfo.referenced_issues := [5%Z; 5%Z] |}.

(** Two pull requests for one issue, by alice, and by bob and alice. *)
Definition two_solvers_repo : Repository.t :=
  repo [pr 11 true (Some "alice") (Some "fixes #3")
           [Commit.mk "Guard the null case" (Some "alice")] [];
        pr 10 true (Some "bob") (Some "closes #3")
           [Commit.mk "Add a test" (Some "bob");
            Commit.mk "Review remarks" (Some "alice");
            Commit.mk "Merge branch" None] []]
       "open".

(** A pull request whose only commit message starts with a bar. *)
Definition bar_repo : Repository.t :=
  repo [pr 12 true (Some "alice") (Some "fixes #4")
           [Commit.mk "| tidy up the table" (Some "alice")] []]
       "open".

(** A file whose name holds a line feed, and an ordinary one. *)
Definition odd_file : File.t :=
  {| File.filename := "notes" ++ String LF "old.txt";
     File.additions := 2; File.deletions := 0; File.changes := 2;
     File.status := "added";
     File.patch := Some ("+one" ++ String LF "+two") |}.

Definition plain_file : File.t :=
  {| File.filename := "src/main.py";
     File.additions := 2; File.deletions := 0; File.changes := 2;
     File.status := "modified";
     File.patch := Some ("+one" ++ String LF "+two") |}.

Definition files_repo (files : list File.t) : Repository.t :=
  repo [pr 13 true (Some "alice") (Some "fixes #6") [] files] "open".

(** A description with the phrase "fixes #7" and a later reference of
    4301 digits. *)
Definition long_reference : Text.t :=
  (Text.of_string "fixes #7 and fixes #" ++ repeat 49%N 4301)%list.

(** A merged pull request with that description. *)
Definition long_pr (number : Z) : PullRequest.t :=
  {| PullRequest.number := number;
     PullRequest.title := "Change " ++ Str.of_Z number;
     PullRequest.user := Some "alice";
     PullRequest.merged := true;
     PullRequest.merged_at := Some "2024-05-01T10:00:00";
     PullRequest.merged_by := Some "maintainer";
     PullRequest.body := Some long_reference;
     PullRequest.get_files := Ok [];
     PullRequest.get_commits := Ok [] |}.

(** A listing whose first merged pull request has that description. *)
Definition long_repo : Repository.t :=
  repo [long_pr 30; merged_pr 29 "fixes #2"; merged_pr 28 "fixes #3"] "open".

(** The tables of a database whose only decimal digits above 127 are
    the Arabic-Indic ones (1632 to 1641) and whose only case mapping
    above 127 is that of the capital I with a dot above (304), which
    becomes the letter i and a combining dot (775). *)
Definition small_database : Unicode.
Proof.
  refine {| Text.decimal := fun c =>
              if ((1632 <=? c) && (c <=? 1641))%N then Some (c - 1632)%N
              else None;
            Text.lower_full := fun c =>
              if (c =? 304)%N then [105%N; 775%N] else [c];
            Text.final_sigma := fun _ _ => false |}.
  - intros c Hc. destruct (N.eqb_spec c 304) as [->|_];
      [discriminate | reflexivity].
  - intros c Hc.
    destruct ((1632 <=? c) && (c <=? 1641))%N eqn:E; [|now contradiction Hc].
    apply andb_true_iff in E as [E1 E2].
    apply N.leb_le in E1. apply N.leb_le in E2.
    split; [lia|]. destruct (N.eqb_spec c 304); [lia | reflexivity].
  - intros c Hc Hd. destruct (N.eqb_spec c 304) as [->|_].
    + exists 105%N, [775%N]. split; reflexivity.
    + exists c, []. split; [reflexivity|]. unfold Text.digit_in.
      apply N.ltb_ge in Hc. now rewrite Hc, Hd.
  - split; reflexivity.
Defined.

(** A source that answers for neither issue 3 nor pull request 11. *)
Definition flaky_repo : Repository.t :=
  let pulls :=
    [pr 11 true (Some "alice") (Some "fixes #3")
        [Commit.mk "Guard the null case" (Some "alice")] [];
     pr 10 true (Some "bob") (Some "closes #3, fixes #4")
        [Commit.mk "Add a test" (Some "bob")] []] in
  {| Repository.get_pulls := pulls;
     Repository.get_issue := fun n =>
       if (n =? 3)%Z then Raise "502 Bad Gateway" else Ok (issue "open");
     Repository.get_pull := fun n =>
       if (n =? 11)%Z then Raise "502 Bad Gateway"
       else match find (fun p => (PullRequest.number p =? n)%Z) pulls with
            | Some p => Ok p
            | None => Raise "404 Not Found"
            end |}.

(** The repository of a first run, and the same one later, when the
    issue has been closed. *)
Definition before : Repository.t := repo [merged_pr 14 "fixes #42"] "open".
Definition after : Repository.t := repo [merged_pr 14 "fixes #42"] "closed".

End Sample.

(* ================================================================== *)
(** ** Cache files (lines 45-47 and 288-289) *)

Definition sanitize_repo_name (repo_name : string) : string :=
  Str.replace "/" "_" repo_name.

Definition CACHE_DIR : string := "cache".
Definition MAX_PRS : Z := 500.
Definition REPO_LIST : list string := ["tensorflow/tensorflow"; "numpy/numpy"].

(** [os.path.join(CACHE_DIR, ...)] with the POSIX separator. *)
Definition cache_file (repo_name : string) : string :=
  CACHE_DIR ++ "/" ++ "issue_solver_data_" ++ sanitize_repo_name repo_name ++ ".json".

(* ================================================================== *)
(** ** Flattening a mapping given as a Python value (lines 241-276)

    [generate_csv_rows] reads its mapping through [items], [get], [len],
    [join], [lstrip] and iteration only, so it runs on whatever
    [json.load] returned.  The operations below are those of Python on
    the values of [Json.value]; an operation that raises returns
    [Raise]. *)

Module Py.

(** [bool(v)] *)
Definition truthy (v : value) : bool :=
  match v with
  | VNone => false
  | VInt n => negb (n =? 0)%Z
  | VStr s => Str.truthy s
  | VList l => match l with [] => false | _ :: _ => true end
  | VDict d => match d with [] => false | _ :: _ => true end
  end.

Definition key_value (k : key) : value :=
  match k with
  | KInt n => VInt n
  | KStr s => VStr s
  end.

(** [for x in v]: the items of a list, the characters of a string, the
    keys of a dictionary. *)
Definition iter (v : value) : result (list value) :=
  match v with
  | VList l => Ok l
  | VStr s => Ok (map (fun c => VStr (String c "")) (Str.chars s))
  | VDict d => Ok (map (fun kv => key_value (fst kv)) d)
  | VNone => Raise "TypeError: 'NoneType' object is not iterable"
  | VInt _ => Raise "TypeError: 'int' object is not iterable"
  end.

(** [len(v)] *)
Definition len (v : value) : result nat :=
  match v with
  | VList l => Ok (List.length l)
  | VStr s => Ok (String.length s)
  | VDict d => Ok (List.length d)
  | VNone => Raise "TypeError: object of type 'NoneType' has no len()"
  | VInt _ => Raise "TypeError: object of type 'int' has no len()"
  end.

Fixpoint all_str (items : list value) : result (list string) :=
  match items with
  | [] => Ok []
  | VStr s :: rest => strs <- all_str rest ;; Ok (s :: strs)
  | _ :: _ => Raise "TypeError: sequence item: expected str instance"
  end.

(** [sep.join(v)] *)
Definition join (sep : string) (v : value) : result string :=
  items <- iter v ;;
  strs <- all_str items ;;
  Ok (Str.join sep strs).

(** [v.lstrip(cs)] *)
Definition lstrip (cs : string) (v : value) : result string :=
  match v with
  | VStr s => Ok (Str.lstrip cs s)
  | _ => Raise "AttributeError: object has no attribute 'lstrip'"
  end.

(** [d.get(k, default)] *)
Definition get (d : value) (k : string) (default : value) : result value :=
  match d with
  | VDict kv =>
      Ok (match lookup (KStr k) kv with Some v => v | None => default end)
  | _ => Raise "AttributeError: object has no attribute 'get'"
  end.

(** [d.items()] *)
Definition items (d : value) : result (list (key * value)) :=
  match d with
  | VDict kv => Ok kv
  | _ => Raise "AttributeError: object has no attribute 'items'"
  end.

End Py.

Module RowV.
(** A row whose fields read from the mapping are Python values. *)
Record t := mk {
  repo_name : string;
  contributor_id : value;
  issue_id : value;
  issue_title : value;
  issue_body : string;
  issue_comments : string;
  issue_state : value;
  issue_created_at : value;
  issue_closed_at : value;
  opened_by : value;
  issue_labels : string;
  linked_pr_count : nat;
  modified_source_files : string;
  commit_messages : string
}.
End RowV.

(** [get_issue_details(repo, v)]: PyGithub rejects a number that is not
    an [int], which the handler of line 72 turns into the empty record. *)
Definition get_issue_details_value (repo : Repository.t) (v : value)
  : IssueDetails.t :=
  match v with
  | VInt n => get_issue_details repo n
  | _ => IssueDetails.empty
  end.

(** The body of the loop of line 247.  The inner loop runs at least once
    whenever it runs at all, so what its body may raise is raised here
    before the rows are made. *)
Definition rows_of_value (repo : Repository.t) (repo_name : string)
  (issue_data : value) : result (list RowV.t) :=
  linked_prs <- Py.get issue_data "linked_prs" (VList []) ;;
  linked_pr_count <- Py.len linked_prs ;;
  file_changes <- Py.get issue_data "file_changes" (VList []) ;;
  modified_files <- Py.join FILE_CHANGE_DELIMITER file_changes ;;
  accumulated <- Py.get issue_data "commit_messages" (VStr "") ;;
  commit_messages <- Py.lstrip COMMIT_MSG_DELIMITER accumulated ;;
  solvers <- Py.get issue_data "solvers" (VList []) ;;
  let solvers := if Py.truthy solvers then solvers else VList [VStr "unknown"] in
  number <- Py.get issue_data "issue_number" (VInt 0) ;;
  let issue_details := get_issue_details_value repo number in
  solver_list <- Py.iter solvers ;;
  issue_id <- Py.get issue_data "issue_number" (VStr "") ;;
  issue_title <- Py.get issue_data "title" (VStr "") ;;
  issue_state <- Py.get issue_data "state" (VStr "") ;;
  issue_created_at <- Py.get issue_data "created_at" (VStr "") ;;
  issue_closed_at <- Py.get issue_data "closed_at" (VStr "") ;;
  opened_by <- Py.get issue_data "opened_by" (VStr "") ;;
  labels <- Py.get issue_data "labels" (VList []) ;;
  issue_labels <- (if Py.truthy labels then Py.join ", " labels else Ok "") ;;
  Ok (map (fun solver =>
             {| RowV.repo_name := repo_name;
                RowV.contributor_id := solver;
                RowV.issue_id := issue_id;
                RowV.issue_title := issue_title;
                RowV.issue_body := IssueDetails.body issue_details;
                RowV.issue_comments := IssueDetails.comments issue_details;
                RowV.issue_state := issue_state;
                RowV.issue_created_at := issue_created_at;
                RowV.issue_closed_at := issue_closed_at;
                RowV.opened_by := opened_by;
                RowV.issue_labels := issue_labels;
                RowV.linked_pr_count := linked_pr_count;
                RowV.modified_source_files := modified_files;
                RowV.commit_messages := commit_messages |})
          solver_list).

Fixpoint collect_rows (repo : Repository.t) (repo_name : string)
  (items : list (key * value)) : result (list RowV.t) :=
  match items with
  | [] => Ok []
  | (_, issue_data) :: rest =>
      rows <- rows_of_value repo repo_name issue_data ;;
      more <- collect_rows repo repo_name rest ;;
      Ok (rows ++ more)%list
  end.

Definition generate_csv_rows_value (issue_solver_data : value)
  (repo : Repository.t) (repo_name : string) : result (list RowV.t) :=
  items <- Py.items issue_solver_data ;;
  collect_rows repo repo_name items.

(** A row of the typed flattening as a row of values. *)
Definition row_value (r : Row.t) : RowV.t :=
  {| RowV.repo_name := Row.repo_name r;
     RowV.contributor_id := VStr (Row.contributor_id r);
     RowV.issue_id := VInt (Row.issue_id r);
     RowV.issue_title := of_option (Row.issue_title r);
     RowV.issue_body := Row.issue_body r;
     RowV.issue_comments := Row.issue_comments r;
     RowV.issue_state := VStr (Row.issue_state r);
     RowV.issue_created_at := VStr (Row.issue_created_at r);
     RowV.issue_closed_at := VStr (Row.issue_closed_at r);
     RowV.opened_by := VStr (Row.opened_by r);
     RowV.issue_labels := Row.issue_labels r;
     RowV.linked_pr_count := Row.linked_pr_count r;
     RowV.modified_source_files := Row.modified_source_files r;
     RowV.commit_messages := Row.commit_messages r |}.

(* ================================================================== *)
(** ** The pipeline (lines 279-311)

    [gh.get_repo] is a function from names to repositories that may
    raise; the cache directory is a list of files, each a path and the
    JSON document it holds (objects with distinct keys). *)

Definition github := string -> result Repository.t.
Definition files := list (string * json).

Fixpoint file_get (path : string) (fs : files) : option json :=
  match fs with
  | [] => None
  | (p, doc) :: fs' => if String.eqb path p then Some doc else file_get path fs'
  end.

(** [open(path, "w")] followed by [json.dump]. *)
Fixpoint file_put (path : string) (doc : json) (fs : files) : files :=
  match fs with
  | [] => [(path, doc)]
  | (p, old) :: fs' =>
      if String.eqb path p then (p, doc) :: fs' else (p, old) :: file_put path doc fs'
  end.

(** Lines 291-304: the mapping of a repository and the files afterwards,
    [None] when the repository has no cache and cannot be accessed. *)
Definition load_or_build `{Unicode} (gh : github) (fs : files)
  (repo_name : string) : option (files * value) :=
  let path := cache_file repo_name in
  match file_get path fs with
  | Some doc => Some (fs, load doc)
  | None =>
      match gh repo_name with
      | Raise _ => None
      | Ok repo =>
          let issue_solver_data :=
            issue_map_value (build_issue_solver_data repo MAX_PRS) in
          Some (file_put path (dump issue_solver_data) fs, issue_solver_data)
      end
  end.

(** One iteration of the loop of line 286: the files afterwards and the
    rows added to [all_csv_rows]. *)
Definition main_repo `{Unicode} (gh : github) (fs : files)
  (repo_name : string) : files * list RowV.t :=
  match load_or_build gh fs repo_name with
  | None => (fs, [])
  | Some (fs', issue_solver_data) =>
      (fs',
       catch (repo <- gh repo_name ;;
              generate_csv_rows_value issue_solver_data repo repo_name)
             (fun _ => []))
  end.

Definition main_loop `{Unicode} (gh : github) (repo_list : list string)
  (fs : files) : files * list RowV.t :=
  fold_left
    (fun state repo_name =>
       let (fs', rows) := main_repo gh (fst state) repo_name in
       (fs', (snd state ++ rows)%list))
    repo_list (fs, []).

(** The files and the rows handed to the CSV writer at the end of
    [main]. *)
Definition main `{Unicode} (gh : github) (fs : files)
  : files * list RowV.t :=
  main_loop gh REPO_LIST fs.

(* ================================================================== *)
(** ** Order of first occurrence *)

(** A list of numbers extended by a number it does not hold yet. *)
Definition add_key (ks : list Z) (n : Z) : list Z :=
  if existsb (Z.eqb n) ks then ks else (ks ++ [n])%list.

(** The numbers of a list, each once, in the order in which they first
    occur. *)
Definition first_occurrences (l : list Z) : list Z := fold_left add_key l [].

(* ================================================================== *)
(** * Properties *)

(** ** Texts and the matcher *)


Module TextFacts.

Import Text.
Local Open Scope N_scope.
Local Open Scope list_scope.

Lemma of_string_app (a b : string) :
  of_string (a ++ b)%string = of_string a ++ of_string b.
Proof.
  unfold of_string. induction a as [|c a IH]; simpl; [reflexivity|].
  now rewrite IH.
Qed.

Lemma starts_with_spec (p s : t) :
  starts_with p s = true <-> exists r, s = p ++ r.
Proof.
  revert s; induction p as [|c p IH]; intros s; simpl.
  - split; [exists s; reflexivity | reflexivity].
  - destruct s as [|d s].
    + split; [discriminate | intros [r Hr]; discriminate].
    + rewrite andb_true_iff, IH. split.
      * intros [Hc [r ->]]. apply N.eqb_eq in Hc; subst. now exists r.
      * intros [r Hr]. injection Hr as -> ->. split.
        -- apply N.eqb_refl.
        -- now exists r.
Qed.

(** [contains] decides the occurrence of a word in a text. *)
Lemma contains_chars_spec (p s : t) :
  contains_chars p s = true <-> exists a b, s = a ++ p ++ b.
Proof.
  induction s as [|d s IH].
  - simpl. rewrite orb_false_r, starts_with_spec. split.
    + intros [r Hr]. exists [], r. exact Hr.
    + intros [a [b Hab]]. destruct a; [now exists b|discriminate].
  - change (contains_chars p (d :: s))
      with (starts_with p (d :: s) || contains_chars p s).
    rewrite orb_true_iff, starts_with_spec, IH. split.
    + intros [[r Hr] | [a [b Hab]]].
      * exists [], r. exact Hr.
      * exists (d :: a), b. simpl. now rewrite Hab.
    + intros [a [b Hab]]. destruct a as [|e a].
      * left. now exists b.
      * right. injection Hab as -> ->. now exists a, b.
Qed.

Section Lower.

Context {db : Unicode}.







End Lower.

End TextFacts.

Module RegexFacts.

Import Regex TextFacts.
Local Open Scope N_scope.
Local Open Scope list_scope.


Lemma span_spec (f : N -> bool) (s a b : Text.t) :
  span f s = (a, b) -> s = a ++ b /\ forallb f a = true.
Proof.
  revert a b; induction s as [|c s IH]; intros a b; simpl.
  - intros [= <- <-]. now split.
  - destruct (f c) eqn:Hc.
    + destruct (span f s) as [a' b'] eqn:E. intros [= <- <-].
      destruct (IH _ _ eq_refl) as [-> Ha]. simpl. now rewrite Hc.
    + intros [= <- <-]. now split.
Qed.

(** The run of a class is maximal. *)
Lemma span_rest (f : N -> bool) (s a b : Text.t) :
  span f s = (a, b) -> match b with [] => True | c :: _ => f c = false end.
Proof.
  revert a b; induction s as [|c s IH]; intros a b; simpl.
  - now intros [= <- <-].
  - destruct (f c) eqn:Hc.
    + destruct (span f s) as [a' b'] eqn:E. intros [= <- <-].
      exact (IH _ _ eq_refl).
    + now intros [= <- <-].
Qed.

Lemma strip_prefix_app (p r : Text.t) : strip_prefix p (p ++ r) = Some r.
Proof.
  induction p as [|c p IH]; simpl; [now destruct r|].
  now rewrite N.eqb_refl.
Qed.

Lemma strip_prefix_spec (p s r : Text.t) :
  strip_prefix p s = Some r -> s = p ++ r.
Proof.
  revert s; induction p as [|c p IH]; intros s; simpl.
  - destruct s; now intros [= ->].
  - destruct s as [|d s]; [discriminate|].
    destruct (N.eqb_spec c d) as [->|]; [|discriminate].
    intros H. now rewrite (IH _ H).
Qed.

Lemma strip_prefix_none (p s : Text.t) :
  Text.starts_with p s = false -> strip_prefix p s = None.
Proof.
  revert s; induction p as [|c p IH]; intros s; simpl.
  - discriminate.
  - destruct s as [|d s]; [reflexivity|].
    destruct (c =? d); simpl; [apply IH | reflexivity].
Qed.


Section Matcher.

Context {db : Unicode}.

(** The text consumed by a match of the tail of a pattern. *)
Lemma match_tail_shape (s ds rest : Text.t) :
  match_tail s = Some (ds, rest) ->
  exists seps, s = seps ++ 35 :: ds ++ rest
               /\ seps <> [] /\ ds <> []
               /\ forallb is_sep seps = true
               /\ forallb Text.is_digit ds = true
               /\ match rest with [] => True | c :: _ => Text.is_digit c = false end.
Proof.
  unfold match_tail.
  destruct (span is_sep s) as [seps r] eqn:E1.
  destruct seps as [|c seps]; [discriminate|].
  destruct r as [|h r']; [discriminate|].
  destruct (N.eqb_spec h 35) as [->|Hh]; [|discriminate].
  destruct (span Text.is_digit r') as [ds' r''] eqn:E2.
  destruct ds' as [|d ds']; [discriminate|].
  intros [= <- <-].
  pose proof (span_rest _ _ _ _ E2) as Hrest.
  apply span_spec in E1 as [-> Hs]. apply span_spec in E2 as [-> Hd].
  exists (c :: seps). repeat split; auto; discriminate.
Qed.

Lemma match_alt_shape (alts : list Text.t) (s ds rest : Text.t) :
  match_alt alts s = Some (ds, rest) ->
  exists kw seps, In kw alts /\ s = kw ++ seps ++ 35 :: ds ++ rest
                  /\ seps <> [] /\ ds <> []
                  /\ forallb is_sep seps = true
                  /\ forallb Text.is_digit ds = true
                  /\ match rest with
                     | [] => True
                     | c :: _ => Text.is_digit c = false
                     end.
Proof.
  induction alts as [|kw alts IH]; simpl; [discriminate|].
  intros Hm.
  assert (Hrec : match_alt alts s = Some (ds, rest) ->
                 exists kw0 seps, (kw = kw0 \/ In kw0 alts)
                   /\ s = kw0 ++ seps ++ 35 :: ds ++ rest
                   /\ seps <> [] /\ ds <> []
                   /\ forallb is_sep seps = true
                   /\ forallb Text.is_digit ds = true
                   /\ match rest with
                      | [] => True
                      | c :: _ => Text.is_digit c = false
                      end).
  { intros H'. destruct (IH H') as [kw0 [seps [Hin Hs]]].
    exists kw0, seps. auto. }
  destruct (strip_prefix kw s) as [r|] eqn:E; [|auto].
  destruct (match_tail r) as [[ds' rest']|] eqn:E'; [|auto].
  injection Hm as -> ->.
  apply strip_prefix_spec in E. apply match_tail_shape in E'.
  destruct E' as [seps [-> Hrest]].
  exists kw, seps. auto.
Qed.

Lemma match_alt_none (alts : list Text.t) (s : Text.t) :
  (forall kw, In kw alts -> Text.starts_with kw s = false) ->
  match_alt alts s = None.
Proof.
  induction alts as [|kw alts IH]; intros Hk; simpl; [reflexivity|].
  rewrite strip_prefix_none by (apply Hk; now left).
  apply IH. intros kw' Hin. apply Hk. now right.
Qed.

(** No match without one of the words of the pattern in the text. *)
Lemma findall_from_nil (alts : list Text.t) (s : Text.t) (k : nat) :
  (forall kw, In kw alts -> Text.contains_chars kw s = false) ->
  findall_from alts k s = [].
Proof.
  revert k; induction s as [|c s IH]; intros k Hk; [reflexivity|].
  assert (Hs : forall kw, In kw alts ->
               Text.starts_with kw (c :: s) = false
               /\ Text.contains_chars kw s = false).
  { intros kw Hin. specialize (Hk kw Hin).
    change (Text.starts_with kw (c :: s) || Text.contains_chars kw s = false)
      in Hk.
    now apply orb_false_iff in Hk. }
  simpl. destruct k as [|k].
  - rewrite match_alt_none by (intros kw Hin; apply (Hs kw Hin)).
    apply IH. intros kw Hin. apply (Hs kw Hin).
  - apply IH. intros kw Hin. apply (Hs kw Hin).
Qed.






(** Every capture of [findall] comes from a match at some position. *)
Lemma findall_from_match (alts : list Text.t) (s ds : Text.t) (k : nat) :
  In ds (findall_from alts k s) ->
  exists pre tail rest,
    s = pre ++ tail /\ match_alt alts tail = Some (ds, rest).
Proof.
  revert k. induction s as [|c s IH]; intros k; [intros []|].
  cbn [findall_from]. destruct k as [|k].
  - destruct (match_alt alts (c :: s)) as [[ds' rest']|] eqn:E.
    + intros [<-|Hin].
      * now exists [], (c :: s), rest'.
      * destruct (IH _ Hin) as [pre [tail [rest [-> Hm]]]].
        now exists (c :: pre), tail, rest.
    + intros Hin. destruct (IH _ Hin) as [pre [tail [rest [-> Hm]]]].
      now exists (c :: pre), tail, rest.
  - intros Hin. destruct (IH _ Hin) as [pre [tail [rest [-> Hm]]]].
    now exists (c :: pre), tail, rest.
Qed.


Lemma convert_all_inv (runs : list Text.t) (refs : list Z) :
  convert_all runs = Ok refs ->
  refs = map int_of_digits runs
  /\ Forall (fun run => (List.length run <= INT_MAX_STR_DIGITS)%nat) runs.
Proof.
  revert refs. induction runs as [|run runs IH]; intros refs.
  - intros [= <-]. split; [reflexivity | constructor].
  - cbn [convert_all map]. unfold int_of_match.
    destruct (INT_MAX_STR_DIGITS <? List.length run)%nat eqn:E;
      [discriminate|].
    cbn [bind]. destruct (convert_all runs) as [ns|e]; [|discriminate].
    cbn [bind]. intros [= <-]. destruct (IH ns eq_refl) as [-> Hruns].
    split; [reflexivity|]. constructor; [|exact Hruns].
    now apply Nat.ltb_ge.
Qed.


End Matcher.

End RegexFacts.

(** ** Reference extraction *)

Section Extraction_facts.

Import Regex TextFacts RegexFacts.
Local Open Scope N_scope.
Local Open Scope list_scope.

Context {db : Unicode}.




End Extraction_facts.

Section Decimal_facts.

Import Regex.
Local Open Scope Z_scope.

Context {db : Unicode}.




End Decimal_facts.




Example extract_duplicates :
  extract_references (Text.of_string "Fixes: #5, closes #5 (see issue #5)")
  = Ok [5%Z; 5%Z; 5%Z].
Proof. vm_compute. reflexivity. Qed.

Example extract_inside_word :
  extract_references (Text.of_string "prefix #3 and fixes#4 and fix 5")
  = Ok [3%Z].
Proof. vm_compute. reflexivity. Qed.

Example extract_leading_zeros :
  extract_references (Text.of_string "RESOLVES: #007") = Ok [7%Z].
Proof. vm_compute. reflexivity. Qed.

(** The no-break space (160) and the em space (8195) separate like a
    blank. *)
Example extract_wide_space :
  extract_references
    (Text.of_string "fixes" ++ [160%N; 8195%N] ++ Text.of_string "#12")%list
  = Ok [12%Z].
Proof. vm_compute. reflexivity. Qed.

(** With a database whose decimal digits above 127 are the Arabic-Indic
    ones, a digit of that script goes on the run of digits: "fixes #12"
    followed by the digit three (1635) refers to 123. *)
Example extract_other_script :
  @extract_references Sample.small_database
    (Text.of_string "fixes #12" ++ [1635%N])%list
  = Ok [123%Z].
Proof. vm_compute. reflexivity. Qed.

(** The capital I with a dot above is lower-cased to two code points,
    so that a word written with it is not a trigger word. *)
Example extract_dotted_capital :
  @extract_references Sample.small_database
    (Text.of_string "F" ++ [304%N] ++ Text.of_string "XES #1, FIXES #2")%list
  = Ok [2%Z].
Proof. vm_compute. reflexivity. Qed.

(** C4. A text in which none of the words close, closes, closed, fix,
    fixes, fixed, resolve, resolves, resolved, issue, issues occurs, in
    any casing, has no extracted reference. *)
Theorem no_trigger_no_reference {db : Unicode} (text : Text.t) :
  forallb (fun kw => negb (Text.contains kw (Text.lower text))) trigger_phrases
  = true ->
  extract_references text = Ok [].
Proof.
  intros Hno. rewrite forallb_forall in Hno.
  assert (Hp : forall p, In p closing_patterns ->
                 Regex.findall p (Text.lower text) = []).
  { intros p Hin. unfold Regex.findall. apply RegexFacts.findall_from_nil.
    intros kw Hkw. apply in_map_iff in Hkw as [w [<- Hw]].
    assert (Hin' : In w trigger_phrases).
    { unfold trigger_phrases. apply in_concat. now exists p. }
    specialize (Hno w Hin'). apply negb_true_iff in Hno. exact Hno. }
  unfold extract_references, captured_runs.
  assert (Hruns : flat_map (fun pattern => Regex.findall pattern (Text.lower text))
                           closing_patterns = []).
  { induction closing_patterns as [|p ps IH]; [reflexivity|].
    cbn [flat_map]. rewrite (Hp p (or_introl eq_refl)). simpl.
    apply IH. intros q Hq. apply Hp. now right. }
  now rewrite Hruns.
Qed.

Lemma no_trigger_no_reference_witness :
  extract_references (Text.of_string "Refactor the parser; see #12 and PR #13")
  = Ok [].
Proof.
  apply (no_trigger_no_reference
           (Text.of_string "Refactor the parser; see #12 and PR #13")).
  vm_compute. reflexivity.
Defined.

(** ** The scan *)

Section Scan_facts.

Local Open Scope list_scope.

Context {db : Unicode}.
Variable max_prs : Z.

Lemma merged_count_cons (pr : PullRequest.t) (prs : list PullRequest.t) :
  merged_count (pr :: prs)
  = ((if PullRequest.merged pr then 1 else 0) + merged_count prs)%nat.
Proof. unfold merged_count. simpl. now destruct (PullRequest.merged pr). Qed.

Lemma merged_count_app (a b : list PullRequest.t) :
  merged_count (a ++ b) = (merged_count a + merged_count b)%nat.
Proof. unfold merged_count. now rewrite filter_app, length_app. Qed.

(** An unmerged pull request leaves the state as it is. *)
Lemma scan_step_unmerged (pr : PullRequest.t) (st : scan_state) :
  PullRequest.merged pr = false -> scan_step max_prs pr st = (st, Continue).
Proof. intros H. unfold scan_step. now rewrite H. Qed.

(** A merged pull request that is processed without error counts for
    one, and ends the loop when the counter has reached the cap. *)
Lemma scan_step_merged (pr : PullRequest.t) (st : scan_state) :
  PullRequest.merged pr = true -> raises pr = false ->
  processed_count (fst (scan_step max_prs pr st)) = (processed_count st + 1)%Z
  /\ snd (scan_step max_prs pr st)
     = if (processed_count st + 1 >=? max_prs)%Z then Break else Continue.
Proof.
  intros Hm Hr. unfold raises in Hr. rewrite Hm in Hr. cbn [andb] in Hr.
  unfold scan_step. rewrite Hm. cbn [negb].
  destruct (PullRequest.user pr); [|discriminate]. cbn [orb] in Hr.
  destruct (referenced_issues_of (PullRequest.body pr)); [|discriminate].
  now split.
Qed.

(** The loop, from a state below the cap, when no pull request raises. *)
Lemma scan_loop_counts (prs : list PullRequest.t) :
  forallb (fun pr => negb (raises pr)) prs = true ->
  forall st : scan_state,
    (processed_count st < max_prs)%Z ->
    let total := (processed_count st + Z.of_nat (merged_count prs))%Z in
    let out := scan_loop max_prs prs st in
    processed_count (fst out) = Z.min max_prs total
    /\ exists seen,
         prs = seen ++ snd out
         /\ processed_count (fst out)
            = (processed_count st + Z.of_nat (merged_count seen))%Z
         /\ ((total < max_prs)%Z -> snd out = [])
         /\ ((max_prs <= total)%Z ->
             exists before last, seen = before ++ [last]
                                 /\ PullRequest.merged last = true).
Proof.
  induction prs as [|pr prs IH]; intros Hok st Hlt; cbn zeta.
  - unfold merged_count. simpl. rewrite Z.add_0_r. split; [lia|].
    exists []. split; [reflexivity|]. split; [simpl; lia|].
    split; [reflexivity | intros H; lia].
  - simpl in Hok. apply andb_true_iff in Hok as [Hpr Hok].
    apply negb_true_iff in Hpr. rewrite merged_count_cons.
    destruct (PullRequest.merged pr) eqn:Hm.
    + destruct (scan_step_merged pr st Hm Hpr) as [Hc Hf].
      cbn [scan_loop].
      destruct (scan_step max_prs pr st) as [st' fl]. simpl in Hc, Hf.
      destruct (Z.geb_spec (processed_count st + 1) max_prs) as [Hge|Hnge];
        subst fl.
      * simpl. split; [lia|]. exists [pr]. repeat split.
        -- rewrite merged_count_cons, Hm. unfold merged_count. simpl. lia.
        -- lia.
        -- intros _. now exists [], pr.
      * specialize (IH Hok st'). rewrite Hc in IH.
        destruct (IH ltac:(lia)) as [Hcount [seen [Hsplit [Hseen [Hall Hcap]]]]].
        split; [rewrite Hcount; lia|].
        exists (pr :: seen). repeat split.
        -- simpl. now rewrite <- Hsplit.
        -- rewrite Hseen, merged_count_cons, Hm. lia.
        -- intros H. apply Hall. lia.
        -- intros H. destruct (Hcap ltac:(lia)) as [before [last [-> Hl]]].
           now exists (pr :: before), last.
    + cbn [scan_loop]. rewrite (scan_step_unmerged pr st Hm).
      destruct (IH Hok st Hlt) as [Hcount [seen [Hsplit [Hseen [Hall Hcap]]]]].
      split; [rewrite Hcount; lia|].
      exists (pr :: seen). repeat split.
      * simpl. now rewrite <- Hsplit.
      * rewrite Hseen, merged_count_cons, Hm. lia.
      * intros H. apply Hall. lia.
      * intros H. destruct (Hcap ltac:(lia)) as [before [last [-> Hl]]].
        now exists (pr :: before), last.
Qed.

End Scan_facts.

(** C1 at a listing of three merged pull requests, scanned with the cap
    1, whose first pull request has a description with a reference of
    4301 digits.  The conversion of line 174 raises after the counter has
    been incremented, the handler of line 180 goes on to the next pull
    request and the test of line 178 is not reached: the scan counts two
    merged pull requests, keeps the second one and leaves only the third
    unread. *)
Theorem scan_overshoots_cap :
  let out := scan Sample.long_repo 1 in
  map PullRequest.merged (Repository.get_pulls Sample.long_repo)
  = [true; true; true]
  /\ map PullRequest.number (Repository.get_pulls Sample.long_repo)
     = [30%Z; 29%Z; 28%Z]
  /\ processed_count (fst out) = 2%Z
  /\ Dict.keys (pr_issue_mapping (fst out)) = [29%Z]
  /\ map PullRequest.number (snd out) = [28%Z].
Proof. vm_compute. repeat split; reflexivity. Qed.

(** The same happens when the merged pull request that reaches the cap
    has no user: the scan goes on to the next merged one. *)
Example scan_after_error :
  let repo := Sample.repo [Sample.merged_pr 9 "fixes #1"; Sample.ghost_pr 8;
                           Sample.merged_pr 7 "fixes #3";
                           Sample.merged_pr 6 "fixes #4"] "open" in
  processed_count (fst (scan repo 2)) = 3%Z
  /\ map PullRequest.number (snd (scan repo 2)) = [6%Z].
Proof. vm_compute. split; reflexivity. Qed.

(** With the cap 0 one merged pull request is counted: the test of line
    178 comes after the increment. *)
Example scan_cap_zero_counts_one :
  let repo := Sample.repo [Sample.merged_pr 9 "fixes #1";
                           Sample.merged_pr 8 "fixes #2"] "open" in
  processed_count (fst (scan repo 0)) = 1%Z.
Proof. vm_compute. reflexivity. Qed.

(** X30. With a cap of at least 1 and a listing none of whose merged
    pull requests raises while it is processed, the scan classifies
    min(cap, number of merged pull requests of the listing) pull requests
    as merged.  The pull requests never looked at are a suffix of the
    listing; the merged ones before it are exactly those counted; when
    the listing has at least cap merged pull requests the last one looked
    at is merged, and otherwise the whole listing is looked at.  Unmerged
    pull requests change neither the counter nor the stopping point. *)
Theorem scan_stops_at_cap {db : Unicode} (repo : Repository.t) (max_prs : Z) :
  (1 <= max_prs)%Z ->
  forallb (fun pr => negb (raises pr)) (Repository.get_pulls repo) = true ->
  let merged_total := Z.of_nat (merged_count (Repository.get_pulls repo)) in
  let out := scan repo max_prs in
  processed_count (fst out) = Z.min max_prs merged_total
  /\ exists seen,
       Repository.get_pulls repo = (seen ++ snd out)%list
       /\ Z.of_nat (merged_count seen) = processed_count (fst out)
       /\ ((merged_total < max_prs)%Z -> snd out = [])
       /\ ((max_prs <= merged_total)%Z ->
           exists before last, seen = (before ++ [last])%list
                               /\ PullRequest.merged last = true).
Proof.
  intros Hcap Hok. cbn zeta. unfold scan.
  destruct (scan_loop_counts max_prs (Repository.get_pulls repo) Hok
              (mk_scan [] 0) ltac:(simpl; lia))
    as [Hcount [seen [Hsplit [Hseen [Hall Hlast]]]]].
  simpl in Hcount, Hseen, Hall, Hlast.
  split; [exact Hcount|].
  exists seen. repeat split; auto.
Qed.

Lemma scan_stops_at_cap_witness :
  let repo := Sample.repo [Sample.unmerged_pr 9; Sample.merged_pr 8 "fixes #1";
                           Sample.unmerged_pr 7; Sample.unmerged_pr 6;
                           Sample.merged_pr 5 "no reference";
                           Sample.merged_pr 4 "closes #2"] "open" in
  processed_count (fst (scan repo 2)) = 2%Z.
Proof.
  intros repo.
  assert (Hok : forallb (fun pr => negb (raises pr)) (Repository.get_pulls repo)
                = true) by (vm_compute; reflexivity).
  exact (proj1 (scan_stops_at_cap repo 2 ltac:(lia) Hok)).
Defined.

(** ** Dictionaries *)

Module DictFacts.
Section DictFacts.

Context {db : Unicode}.
Variable V : Type.
Implicit Types (d : Dict.t V) (k : Z) (v : V).

Lemma get_set_same k v d : Dict.get k (Dict.set k v d) = Some v.
Proof.
  induction d as [|[k' v'] d IH]; simpl.
  - now rewrite Z.eqb_refl.
  - destruct (Z.eqb_spec k k') as [->|Hne]; simpl.
    + now rewrite Z.eqb_refl.
    + destruct (Z.eqb_spec k k'); [contradiction | exact IH].
Qed.

Lemma get_set_other k k' v d :
  k <> k' -> Dict.get k (Dict.set k' v d) = Dict.get k d.
Proof.
  intros Hne. induction d as [|[k0 v0] d IH]; simpl.
  - destruct (Z.eqb_spec k k'); [contradiction | reflexivity].
  - destruct (Z.eqb_spec k' k0) as [->|Hne']; simpl.
    + now destruct (Z.eqb_spec k k0).
    + destruct (Z.eqb_spec k k0); [reflexivity | exact IH].
Qed.

Lemma get_update_same k (f : V -> V) d :
  Dict.get k (Dict.update k f d) = option_map f (Dict.get k d).
Proof.
  induction d as [|[k0 v0] d IH]; simpl; [reflexivity|].
  destruct (Z.eqb_spec k k0) as [->|Hne]; simpl.
  - now rewrite Z.eqb_refl.
  - destruct (Z.eqb_spec k k0); [contradiction | exact IH].
Qed.

Lemma get_update_other k k' (f : V -> V) d :
  k <> k' -> Dict.get k (Dict.update k' f d) = Dict.get k d.
Proof.
  intros Hne. induction d as [|[k0 v0] d IH]; simpl; [reflexivity|].
  destruct (Z.eqb_spec k' k0) as [->|Hne']; simpl.
  - now destruct (Z.eqb_spec k k0).
  - destruct (Z.eqb_spec k k0); [reflexivity | exact IH].
Qed.

Lemma keys_update k (f : V -> V) d : Dict.keys (Dict.update k f d) = Dict.keys d.
Proof.
  induction d as [|[k0 v0] d IH]; simpl; [reflexivity|].
  destruct (k =? k0)%Z; simpl; [reflexivity|]. now f_equal.
Qed.

Lemma get_none_keys k d : Dict.get k d = None <-> ~ In k (Dict.keys d).
Proof.
  induction d as [|[k0 v0] d IH]; simpl; [tauto|].
  destruct (Z.eqb_spec k k0) as [->|Hne].
  - split; [discriminate | intros H; exfalso; apply H; now left].
  - rewrite IH. split; [intros H [Heq|Hin]; congruence || auto | tauto].
Qed.

Lemma get_some_in k v d : Dict.get k d = Some v -> In (k, v) d.
Proof.
  induction d as [|[k0 v0] d IH]; simpl; [discriminate|].
  destruct (Z.eqb_spec k k0) as [->|Hne].
  - intros [= ->]. now left.
  - intros H. right. now apply IH.
Qed.

Lemma in_get k v d : NoDup (Dict.keys d) -> In (k, v) d -> Dict.get k d = Some v.
Proof.
  induction d as [|[k0 v0] d IH]; simpl; [tauto|].
  intros Hnd [Heq|Hin].
  - injection Heq as -> ->. now rewrite Z.eqb_refl.
  - inversion Hnd as [|? ? Hnotin Hnd']; subst.
    destruct (Z.eqb_spec k k0) as [->|Hne]; [|now apply IH].
    exfalso. apply Hnotin. change (In (fst (k0, v)) (map fst d)).
    now apply in_map.
Qed.

(** An assignment keeps the keys unique; a new key goes last. *)
Lemma keys_set k v d :
  Dict.keys (Dict.set k v d)
  = if Dict.mem k d then Dict.keys d else (Dict.keys d ++ [k])%list.
Proof.
  unfold Dict.mem. induction d as [|[k0 v0] d IH]; simpl; [reflexivity|].
  destruct (Z.eqb_spec k k0) as [->|Hne]; simpl; [reflexivity|].
  rewrite IH. now destruct (Dict.get k d).
Qed.

Lemma set_nodup k v d : NoDup (Dict.keys d) -> NoDup (Dict.keys (Dict.set k v d)).
Proof.
  intros Hnd. rewrite keys_set. unfold Dict.mem.
  destruct (Dict.get k d) eqn:E; [exact Hnd|].
  apply get_none_keys in E.
  apply NoDup_app; [exact Hnd | repeat constructor; simpl; tauto |].
  intros x Hx [<-|[]]. contradiction.
Qed.

Lemma set_in k v d item :
  In item (Dict.set k v d) -> item = (k, v) \/ In item d.
Proof.
  induction d as [|[k0 v0] d IH]; simpl.
  - intros [<-|[]]. now left.
  - destruct (k =? k0)%Z; simpl.
    + intros [<-|H]; auto.
    + intros [<-|H]; auto. destruct (IH H); auto.
Qed.

End DictFacts.
End DictFacts.

(** ** The issue-centric mapping *)

Section Invert_facts.

Context {db : Unicode}.

Local Open Scope list_scope.
Import DictFacts.

Lemma stubs_for_append (q : Z) (node : IssueNode.t) (stub : LinkedPR.t) :
  List.length
    (stubs_for q (IssueNode.with_linked_prs (IssueNode.linked_prs node ++ [stub]) node))
  = (List.length (stubs_for q node)
     + if (LinkedPR.number stub =? q)%Z then 1 else 0)%nat.
Proof.
  unfold stubs_for. simpl. rewrite filter_app, length_app. simpl.
  now destruct (LinkedPR.number stub =? q)%Z.
Qed.

(** One reference adds one stub, to the issue it names. *)
Lemma add_link_stubs (d : PrInfo.t) (isd : Dict.t IssueNode.t) (n' n q : Z) :
  List.length (linked_stubs (add_link d isd n') n q)
  = (List.length (linked_stubs isd n q)
     + if ((n' =? n) && (PrInfo.number d =? q))%Z then 1 else 0)%nat.
Proof.
  unfold add_link, linked_stubs, Dict.mem.
  destruct (Z.eqb_spec n' n) as [->|Hne]; simpl.
  - rewrite get_update_same.
    destruct (Dict.get n isd) as [node|] eqn:E.
    + rewrite E. simpl. apply stubs_for_append.
    + rewrite get_set_same. simpl. unfold stubs_for. simpl.
      now destruct (PrInfo.number d =? q)%Z.
  - rewrite get_update_other by congruence.
    destruct (Dict.get n' isd); [now rewrite Nat.add_0_r|].
    rewrite get_set_other by congruence. now rewrite Nat.add_0_r.
Qed.

Lemma add_links_stubs (item : Z * PrInfo.t) (isd : Dict.t IssueNode.t) (n q : Z) :
  List.length (linked_stubs (add_links isd item) n q)
  = (List.length (linked_stubs isd n q)
     + if (PrInfo.number (snd item) =? q)%Z
       then count_occ Z.eq_dec (PrInfo.referenced_issues (snd item)) n
       else 0)%nat.
Proof.
  unfold add_links. generalize (PrInfo.referenced_issues (snd item)) as refs.
  intros refs. revert isd. induction refs as [|r refs IH]; intros isd.
  - simpl. now destruct (PrInfo.number (snd item) =? q)%Z.
  - cbn [fold_left]. rewrite IH, add_link_stubs. cbn [count_occ].
    destruct (Z.eq_dec r n) as [->|Hne].
    + rewrite Z.eqb_refl. simpl.
      destruct (PrInfo.number (snd item) =? q)%Z; lia.
    + destruct (Z.eqb_spec r n); [contradiction|]. simpl.
      destruct (PrInfo.number (snd item) =? q)%Z; lia.
Qed.

Lemma fold_add_links_stubs (m : Dict.t PrInfo.t) (isd : Dict.t IssueNode.t) (n q : Z) :
  List.length (linked_stubs (fold_left add_links m isd) n q)
  = (List.length (linked_stubs isd n q) + references_to m n q)%nat.
Proof.
  revert isd. induction m as [|item m IH]; intros isd.
  - simpl. unfold references_to. simpl. lia.
  - cbn [fold_left]. rewrite IH, add_links_stubs.
    unfold references_to. simpl. lia.
Qed.

(** In a well-formed mapping only one entry carries a given number. *)
Lemma references_to_wf (m : Dict.t PrInfo.t) (q : Z) (d : PrInfo.t) (n : Z) :
  mapping_wf m -> In (q, d) m ->
  references_to m n q = count_occ Z.eq_dec (PrInfo.referenced_issues d) n.
Proof.
  unfold mapping_wf, references_to.
  induction m as [|[k0 d0] m IH]; simpl; [tauto|].
  intros [Hnd Hwf] Hin.
  inversion Hnd as [|? ? Hnotin Hnd']; subst.
  inversion Hwf as [|? ? Hk Hwf']; subst. simpl in Hk.
  assert (Hzero : forall m', Forall (fun item => PrInfo.number (snd item) = fst item) m' ->
                             ~ In q (map fst m') ->
                             list_sum
                               (map (fun item =>
                                       if (PrInfo.number (snd item) =? q)%Z
                                       then count_occ Z.eq_dec
                                              (PrInfo.referenced_issues (snd item)) n
                                       else 0%nat) m') = 0%nat).
  { induction m' as [|[k1 d1] m' IH']; simpl; [reflexivity|].
    intros Hf Hni. inversion Hf as [|? ? Hk1 Hf']; subst. simpl in Hk1.
    destruct (Z.eqb_spec (PrInfo.number d1) q) as [Heq|Hneq].
    - exfalso. apply Hni. left. congruence.
    - apply IH'; [exact Hf' | tauto]. }
  destruct Hin as [Heq|Hin].
  - injection Heq as -> ->. rewrite Hk, Z.eqb_refl.
    rewrite (Hzero m Hwf' Hnotin). lia.
  - destruct (Z.eqb_spec (PrInfo.number d0) q) as [Heq|Hneq].
    + exfalso. apply Hnotin. rewrite <- Hk, Heq.
      change (In (fst (q, d)) (map fst m)). now apply in_map.
    + now apply IH.
Qed.

(** The issue-centric mapping is filed under the issue numbers. *)
Lemma add_link_wf (d : PrInfo.t) (isd : Dict.t IssueNode.t) (n : Z) :
  issues_wf isd -> issues_wf (add_link d isd n).
Proof.
  assert (Hupd : forall (f : IssueNode.t -> IssueNode.t) (D : Dict.t IssueNode.t),
             (forall node, IssueNode.issue_number (f node) = IssueNode.issue_number node) ->
             issues_wf D -> issues_wf (Dict.update n f D)).
  { intros f D Hf [Hnd Hwf]. split; [now rewrite keys_update|].
    clear Hnd. induction D as [|[k0 v0] D IH]; simpl; [constructor|].
    inversion Hwf as [|? ? Hk Hwf']; subst. simpl in Hk.
    destruct (n =? k0)%Z; constructor; simpl; auto.
    now rewrite Hf. }
  intros [Hnd Hwf]. unfold add_link. apply Hupd; [reflexivity|].
  unfold Dict.mem. destruct (Dict.get n isd) eqn:E; [now split|].
  split; [now apply set_nodup|].
  apply Forall_forall. intros item Hin.
  apply set_in in Hin as [->|Hin]; [reflexivity|].
  rewrite Forall_forall in Hwf. now apply Hwf.
Qed.

Lemma invert_wf (m : Dict.t PrInfo.t) : issues_wf (invert m).
Proof.
  unfold invert.
  assert (H : forall isd, issues_wf isd -> issues_wf (fold_left add_links m isd)).
  { induction m as [|item m IH]; intros isd Hwf; [exact Hwf|].
    cbn [fold_left]. apply IH. unfold add_links.
    generalize (PrInfo.referenced_issues (snd item)) as refs.
    intros refs. revert isd Hwf.
    induction refs as [|r refs IHr]; intros isd Hwf; [exact Hwf|].
    cbn [fold_left]. apply IHr. now apply add_link_wf. }
  apply H. split; constructor.
Qed.

(** The scan files every pull request under its own number. *)
Lemma scan_step_wf (max_prs : Z) (pr : PullRequest.t) (st : scan_state) :
  mapping_wf (pr_issue_mapping st) ->
  mapping_wf (pr_issue_mapping (fst (scan_step max_prs pr st))).
Proof.
  intros Hwf. unfold scan_step.
  destruct (PullRequest.merged pr); [|exact Hwf]. simpl.
  destruct (PullRequest.user pr) as [login|]; [|exact Hwf]. simpl.
  destruct (referenced_issues_of (PullRequest.body pr)) as [refs|e];
    [|exact Hwf].
  destruct refs as [|r refs]; [exact Hwf|].
  destruct Hwf as [Hnd Hf]. split; [now apply set_nodup|].
  apply Forall_forall. intros item Hin.
  apply set_in in Hin as [->|Hin]; [reflexivity|].
  rewrite Forall_forall in Hf. now apply Hf.
Qed.

Lemma scan_loop_wf (max_prs : Z) (prs : list PullRequest.t) (st : scan_state) :
  mapping_wf (pr_issue_mapping st) ->
  mapping_wf (pr_issue_mapping (fst (scan_loop max_prs prs st))).
Proof.
  revert st. induction prs as [|pr prs IH]; intros st Hwf; [exact Hwf|].
  cbn [scan_loop]. pose proof (scan_step_wf max_prs pr st Hwf) as Hstep.
  destruct (scan_step max_prs pr st) as [st' [|]]; simpl in *.
  - now apply IH.
  - exact Hstep.
Qed.

Lemma scan_wf (repo : Repository.t) (max_prs : Z) :
  mapping_wf (pr_issue_mapping (fst (scan repo max_prs))).
Proof. apply scan_loop_wf. split; constructor. Qed.

End Invert_facts.

(** ** Enrichment *)

Section Enrich_facts.

Context {db : Unicode}.

Local Open Scope list_scope.
Variable repo : Repository.t.

Lemma enrich_meta_fields (node : IssueNode.t) :
  IssueNode.issue_number (enrich_meta repo node) = IssueNode.issue_number node
  /\ IssueNode.linked_prs (enrich_meta repo node) = IssueNode.linked_prs node
  /\ IssueNode.solvers (enrich_meta repo node) = IssueNode.solvers node
  /\ IssueNode.file_changes (enrich_meta repo node) = IssueNode.file_changes node
  /\ IssueNode.commit_messages (enrich_meta repo node)
     = IssueNode.commit_messages node.
Proof.
  unfold enrich_meta.
  destruct (Repository.get_issue repo (IssueNode.issue_number node));
    simpl; auto.
Qed.

(** The loop of line 221 keeps the stubs, in order, with their numbers. *)
Lemma enrich_prs_numbers (l : list LinkedPR.t) (acc : linked_acc) :
  map LinkedPR.number (acc_prs (fold_left (enrich_pr repo) l acc))
  = map LinkedPR.number (acc_prs acc) ++ map LinkedPR.number l.
Proof.
  revert acc. induction l as [|pr l IH]; intros acc; simpl.
  - now rewrite app_nil_r.
  - rewrite IH. simpl. rewrite map_app. simpl. now rewrite <- app_assoc.
Qed.

Lemma enrich_issue_numbers (node : IssueNode.t) :
  map LinkedPR.number (IssueNode.linked_prs (enrich_issue repo node))
  = map LinkedPR.number (IssueNode.linked_prs node).
Proof.
  unfold enrich_issue. simpl. rewrite enrich_prs_numbers. simpl.
  destruct (enrich_meta_fields node) as [_ [-> _]]. reflexivity.
Qed.

Lemma enrich_issue_number (node : IssueNode.t) :
  IssueNode.issue_number (enrich_issue repo node) = IssueNode.issue_number node.
Proof. unfold enrich_issue. simpl. apply enrich_meta_fields. Qed.

Lemma stubs_for_numbers (q : Z) (a b : IssueNode.t) :
  map LinkedPR.number (IssueNode.linked_prs a)
  = map LinkedPR.number (IssueNode.linked_prs b) ->
  List.length (stubs_for q a) = List.length (stubs_for q b).
Proof.
  unfold stubs_for.
  generalize (IssueNode.linked_prs a) as la, (IssueNode.linked_prs b) as lb.
  induction la as [|x la IH]; intros [|y lb]; simpl; try discriminate; auto.
  intros [= Hn Hrest]. rewrite Hn.
  destruct (LinkedPR.number y =? q)%Z; simpl; auto.
Qed.

(** Enrichment visits every issue, whatever fails on the way. *)
Lemma enrich_keys (isd : Dict.t IssueNode.t) :
  Dict.keys (enrich repo isd) = Dict.keys isd.
Proof. unfold enrich, Dict.keys. rewrite map_map. reflexivity. Qed.

Lemma enrich_get (isd : Dict.t IssueNode.t) (n : Z) :
  Dict.get n (enrich repo isd) = option_map (enrich_issue repo) (Dict.get n isd).
Proof.
  induction isd as [|[k v] isd IH]; simpl; [reflexivity|].
  destruct (n =? k)%Z; [reflexivity | exact IH].
Qed.

Lemma enrich_stubs (isd : Dict.t IssueNode.t) (n q : Z) :
  List.length (linked_stubs (enrich repo isd) n q)
  = List.length (linked_stubs isd n q).
Proof.
  unfold linked_stubs. rewrite enrich_get.
  destruct (Dict.get n isd) as [node|]; simpl; [|reflexivity].
  apply stubs_for_numbers, enrich_issue_numbers.
Qed.

Lemma enrich_wf (isd : Dict.t IssueNode.t) : issues_wf isd -> issues_wf (enrich repo isd).
Proof.
  intros [Hnd Hwf]. split; [now rewrite enrich_keys|].
  unfold enrich. apply Forall_forall. intros item Hin.
  apply in_map_iff in Hin as [item0 [<- Hin0]]. cbn [fst snd].
  rewrite enrich_issue_number. rewrite Forall_forall in Hwf. now apply Hwf.
Qed.

End Enrich_facts.

Lemma build_wf {db : Unicode} (repo : Repository.t) (max_prs : Z) :
  issues_wf (build_issue_solver_data repo max_prs).
Proof. apply enrich_wf, invert_wf. Qed.

(** C8. When a pull request kept by the scan refers to an issue k times
    (k at least 1), the issue-centric mapping has exactly one entry for
    that issue, and the list of linked pull requests of the entry holds
    exactly k stubs of that pull request; this is so after the inversion
    and in the mapping returned by [build_issue_solver_data]. *)
Theorem inversion_keeps_multiplicity {db : Unicode}
  (repo : Repository.t) (max_prs : Z) (pr_number : Z) (pr_data : PrInfo.t)
  (issue_number : Z) :
  let mapping := pr_issue_mapping (fst (scan repo max_prs)) in
  In (pr_number, pr_data) mapping ->
  In issue_number (PrInfo.referenced_issues pr_data) ->
  let k := count_occ Z.eq_dec (PrInfo.referenced_issues pr_data) issue_number in
  count_occ Z.eq_dec (Dict.keys (invert mapping)) issue_number = 1%nat
  /\ List.length (linked_stubs (invert mapping) issue_number pr_number) = k
  /\ count_occ Z.eq_dec (Dict.keys (build_issue_solver_data repo max_prs))
                        issue_number = 1%nat
  /\ List.length (linked_stubs (build_issue_solver_data repo max_prs)
                               issue_number pr_number) = k.
Proof.
  intros mapping Hin Href k.
  assert (Hk : List.length (linked_stubs (invert mapping) issue_number pr_number) = k).
  { unfold invert. rewrite fold_add_links_stubs.
    rewrite (references_to_wf mapping pr_number pr_data issue_number
               (scan_wf repo max_prs) Hin).
    reflexivity. }
  assert (Hpos : (0 < k)%nat) by (apply count_occ_In; exact Href).
  assert (Hkey : count_occ Z.eq_dec (Dict.keys (invert mapping)) issue_number = 1%nat).
  { destruct (invert_wf mapping) as [Hnd _].
    apply NoDup_count_occ'; [exact Hnd|].
    destruct (Dict.get issue_number (invert mapping)) eqn:E.
    - apply DictFacts.get_some_in in E.
      change (In (fst (issue_number, t)) (map fst (invert mapping))).
      now apply in_map.
    - unfold linked_stubs in Hk. rewrite E in Hk. simpl in Hk. lia. }
  unfold build_issue_solver_data. fold mapping.
  rewrite enrich_keys, enrich_stubs. auto.
Qed.

Lemma inversion_keeps_multiplicity_witness :
  List.length
    (linked_stubs (invert (pr_issue_mapping (fst (scan Sample.dup_repo 500)))) 5 7)
  = 2%nat.
Proof.
  assert (Hin : In (7%Z, Sample.dup_info)
                   (pr_issue_mapping (fst (scan Sample.dup_repo 500))))
    by (vm_compute; left; reflexivity).
  assert (Href : In 5%Z (PrInfo.referenced_issues Sample.dup_info))
    by (left; reflexivity).
  destruct (inversion_keeps_multiplicity Sample.dup_repo 500 7 Sample.dup_info 5
              Hin Href) as [_ [H _]].
  exact H.
Defined.

(** ** Rows *)

Section Row_facts.

Context {db : Unicode}.

Local Open Scope list_scope.
Variable repo : Repository.t.
Variable repo_name : string.

Lemma rows_of_issue_ids (d : IssueNode.t) :
  Forall (fun r => Row.issue_id r = IssueNode.issue_number d)
         (rows_of_issue repo repo_name d).
Proof.
  unfold rows_of_issue. apply Forall_forall. intros r Hin.
  apply in_map_iff in Hin as [solver [<- _]]. reflexivity.
Qed.

Lemma rows_for_same (d : IssueNode.t) :
  rows_for (IssueNode.issue_number d) (rows_of_issue repo repo_name d)
  = rows_of_issue repo repo_name d.
Proof.
  unfold rows_for. pose proof (rows_of_issue_ids d) as H.
  induction H as [|r l Hr Hl IH]; simpl; [reflexivity|].
  rewrite Hr, Z.eqb_refl. now f_equal.
Qed.

Lemma rows_for_other (d : IssueNode.t) (n : Z) :
  IssueNode.issue_number d <> n ->
  rows_for n (rows_of_issue repo repo_name d) = [].
Proof.
  intros Hne. unfold rows_for. pose proof (rows_of_issue_ids d) as H.
  induction H as [|r l Hr Hl IH]; simpl; [reflexivity|].
  rewrite Hr. destruct (Z.eqb_spec (IssueNode.issue_number d) n); [contradiction|].
  exact IH.
Qed.

(** The rows of an issue in the output are those of its own iteration. *)
Lemma rows_for_generate (K : Type) (isd : list (K * IssueNode.t))
  (item : K * IssueNode.t) :
  NoDup (map (fun it => IssueNode.issue_number (snd it)) isd) ->
  In item isd ->
  rows_for (IssueNode.issue_number (snd item)) (generate_csv_rows isd repo repo_name)
  = rows_of_issue repo repo_name (snd item).
Proof.
  unfold generate_csv_rows.
  assert (Hother : forall l : list (K * IssueNode.t),
             ~ In (IssueNode.issue_number (snd item))
                  (map (fun it => IssueNode.issue_number (snd it)) l) ->
             rows_for (IssueNode.issue_number (snd item))
               (flat_map (fun it => rows_of_issue repo repo_name (snd it)) l) = []).
  { induction l as [|x l IHl]; simpl; [reflexivity|]. intros Hni.
    unfold rows_for in *. rewrite filter_app.
    fold (rows_for (IssueNode.issue_number (snd item))
                   (rows_of_issue repo repo_name (snd x))).
    rewrite rows_for_other by tauto. simpl. apply IHl. tauto. }
  induction isd as [|x isd IH]; simpl; [tauto|].
  intros Hnd Hin. inversion Hnd as [|? ? Hnotin Hnd']; subst.
  unfold rows_for. rewrite filter_app.
  fold (rows_for (IssueNode.issue_number (snd item))
                 (rows_of_issue repo repo_name (snd x))).
  fold (rows_for (IssueNode.issue_number (snd item))
                 (flat_map (fun it => rows_of_issue repo repo_name (snd it)) isd)).
  destruct Hin as [->|Hin].
  - rewrite rows_for_same, Hother by exact Hnotin. apply app_nil_r.
  - rewrite (IH Hnd' Hin). rewrite rows_for_other; [reflexivity|].
    intros Heq. apply Hnotin. rewrite Heq.
    now apply (in_map (fun it => IssueNode.issue_number (snd it))).
Qed.

End Row_facts.

Lemma build_issue_numbers_nodup {db : Unicode} (repo : Repository.t) (max_prs : Z) :
  NoDup (map (fun it => IssueNode.issue_number (snd it))
             (build_issue_solver_data repo max_prs)).
Proof.
  destruct (build_wf repo max_prs) as [Hnd Hwf].
  replace (map (fun it => IssueNode.issue_number (snd it))
               (build_issue_solver_data repo max_prs))
    with (Dict.keys (build_issue_solver_data repo max_prs)); [exact Hnd|].
  unfold Dict.keys. apply map_ext_in. intros it Hin.
  rewrite Forall_forall in Hwf. symmetry. now apply Hwf.
Qed.

(** C2. In a mapping whose issues have distinct numbers, the rows of the
    output that belong to an issue are max(1, number of contributors)
    many: one per contributor, in order, when there are contributors, and
    a single row with the contributor "unknown" when there are none. *)
Theorem rows_per_issue (K : Type) (issue_solver_data : list (K * IssueNode.t))
  (repo : Repository.t) (repo_name : string) (item : K * IssueNode.t) :
  NoDup (map (fun it => IssueNode.issue_number (snd it)) issue_solver_data) ->
  In item issue_solver_data ->
  let rows := rows_for (IssueNode.issue_number (snd item))
                (generate_csv_rows issue_solver_data repo repo_name) in
  List.length rows = Nat.max 1 (List.length (IssueNode.solvers (snd item)))
  /\ (IssueNode.solvers (snd item) = [] ->
      map Row.contributor_id rows = ["unknown"])
  /\ (IssueNode.solvers (snd item) <> [] ->
      map Row.contributor_id rows = IssueNode.solvers (snd item)).
Proof.
  intros Hnd Hin rows. unfold rows.
  rewrite (rows_for_generate repo repo_name K issue_solver_data item Hnd Hin).
  unfold rows_of_issue, solvers_or_unknown.
  rewrite length_map, map_map. cbn [Row.contributor_id]. rewrite map_id.
  destruct (IssueNode.solvers (snd item)) as [|x l]; simpl.
  - repeat split; congruence.
  - repeat split; congruence.
Qed.

Lemma rows_per_issue_witness :
  let data := build_issue_solver_data Sample.two_solvers_repo 500 in
  let item := hd (0%Z, IssueNode.fresh 0) data in
  IssueNode.solvers (snd item) = ["alice"; "bob"]
  /\ map Row.contributor_id
         (rows_for (IssueNode.issue_number (snd item))
                   (generate_csv_rows data Sample.two_solvers_repo "o/r"))
     = IssueNode.solvers (snd item).
Proof.
  intros data item. split; [vm_compute; reflexivity|].
  assert (Hin : In item data) by (vm_compute; left; reflexivity).
  assert (Hne : IssueNode.solvers (snd item) <> []) by (vm_compute; discriminate).
  exact (proj2 (proj2 (rows_per_issue Z data Sample.two_solvers_repo "o/r" item
                         (build_issue_numbers_nodup Sample.two_solvers_repo 500)
                         Hin))
               Hne).
Defined.

Example rows_of_two_solvers :
  let data := build_issue_solver_data Sample.two_solvers_repo 500 in
  let rows := generate_csv_rows data Sample.two_solvers_repo "o/r" in
  map Row.contributor_id rows = ["alice"; "bob"]
  /\ map Row.linked_pr_count rows = [2%nat; 2%nat].
Proof. vm_compute. split; reflexivity. Qed.

Example rows_without_contributor :
  let data := build_issue_solver_data Sample.dup_repo 500 in
  map Row.contributor_id (generate_csv_rows data Sample.dup_repo "o/r") = ["unknown"].
Proof. vm_compute. reflexivity. Qed.

(** C5, as stated, fails: a mapping built while the issue was open and
    flattened after it was closed gives a row with the state and the
    closing time of the mapping, not those of the fresh fetch. *)
Lemma row_state_not_refetched :
  let data := build_issue_solver_data Sample.before 500 in
  let rows := generate_csv_rows data Sample.after "o/r" in
  let fresh := get_issue_details Sample.after 42 in
  map Row.issue_state rows = ["open"]
  /\ map Row.issue_closed_at rows = [""]
  /\ IssueDetails.state fresh = "closed"
  /\ IssueDetails.closed_at fresh = "2024-05-01T10:00:00".
Proof. vm_compute. repeat split; reflexivity. Qed.

(** C5, amended.  Every row of the output comes from an issue of the
    mapping; its body and comments are those of the details fetched for
    that issue at flattening time, and its state, creation time and
    closing time are those stored in the mapping (empty when absent). *)
Theorem row_fields_sources (K : Type) (issue_solver_data : list (K * IssueNode.t))
  (repo : Repository.t) (repo_name : string) :
  Forall
    (fun r =>
       exists item, In item issue_solver_data /\
         let issue_data := snd item in
         let fresh := get_issue_details repo (IssueNode.issue_number issue_data) in
         Row.issue_id r = IssueNode.issue_number issue_data
         /\ Row.issue_body r = IssueDetails.body fresh
         /\ Row.issue_comments r = IssueDetails.comments fresh
         /\ Row.issue_state r = meta_get issue_data IssueMeta.state
         /\ Row.issue_created_at r = meta_get issue_data IssueMeta.created_at
         /\ Row.issue_closed_at r = meta_get issue_data IssueMeta.closed_at)
    (generate_csv_rows issue_solver_data repo repo_name).
Proof.
  apply Forall_forall. intros r Hin. unfold generate_csv_rows in Hin.
  apply in_flat_map in Hin as [item [Hitem Hr]].
  exists item. split; [exact Hitem|].
  unfold rows_of_issue in Hr. apply in_map_iff in Hr as [solver [<- _]].
  cbn zeta. repeat split.
Qed.

(** What the strip of line 251 does when the text after the delimiter
    starts with neither a space nor a bar. *)
Lemma lstrip_delimiter (msg : string) :
  match msg with
  | EmptyString => True
  | String c _ => Str.mem c COMMIT_MSG_DELIMITER = false
  end ->
  Str.lstrip COMMIT_MSG_DELIMITER (COMMIT_MSG_DELIMITER ++ msg) = msg.
Proof.
  intros H. destruct msg as [|c msg]; [reflexivity|].
  unfold COMMIT_MSG_DELIMITER in *. cbn -[Str.mem]. simpl Str.mem at 1 2 3 4.
  simpl. simpl in H. now rewrite H.
Qed.

(** C6 at a commit message that starts with a bar: the accumulated text
    is the delimiter followed by the message, removing the delimiter
    would leave the message, and the row has lost the bar and the space
    after it. *)
Theorem commit_messages_lose_leading_bar :
  let data := build_issue_solver_data Sample.bar_repo 500 in
  map (fun item => IssueNode.commit_messages (snd item)) data
  = [" || | tidy up the table"]
  /\ Str.removeprefix COMMIT_MSG_DELIMITER " || | tidy up the table"
     = "| tidy up the table"
  /\ map Row.commit_messages (generate_csv_rows data Sample.bar_repo "o/r")
     = ["tidy up the table"].
Proof. vm_compute. repeat split; reflexivity. Qed.

(** ** File changes *)

Section Newline_facts.

Context {db : Unicode}.

Import Str.

Lemma mem_app (c : ascii) (a b : string) :
  mem c (a ++ b) = mem c a || mem c b.
Proof.
  induction a as [|d a IH]; simpl; [reflexivity|].
  now rewrite IH, orb_assoc.
Qed.

Lemma mem_replace (c : ascii) (new s : string) :
  mem c new = false -> mem c (replace c new s) = false.
Proof.
  intros Hnew. induction s as [|d s IH]; simpl; [reflexivity|].
  destruct (Ascii.eqb_spec d c) as [->|Hne].
  - now rewrite mem_app, Hnew, IH.
  - simpl. rewrite IH, orb_false_r. apply Ascii.eqb_neq. congruence.
Qed.

Lemma mem_join (c : ascii) (sep : string) (parts : list string) :
  mem c sep = false ->
  Forall (fun p => mem c p = false) parts ->
  mem c (join sep parts) = false.
Proof.
  intros Hsep H. induction H as [|p ps Hp Hps IH]; [reflexivity|].
  destruct ps as [|q ps]; [exact Hp|].
  change (join sep (p :: q :: ps)) with (p ++ sep ++ join sep (q :: ps)).
  now rewrite !mem_app, Hp, Hsep, IH.
Qed.

Lemma mem_uint (d : Decimal.uint) : mem LF (NilEmpty.string_of_uint d) = false.
Proof. induction d; simpl; auto. Qed.

(** The decimal text of an integer has no line feed. *)
Lemma mem_of_Z (n : Z) : mem LF (of_Z n) = false.
Proof.
  unfold of_Z, NilZero.string_of_int, NilZero.string_of_uint.
  destruct (Z.to_int n) as [d|d]; destruct d; simpl; auto using mem_uint.
Qed.

Lemma patch_no_newline (f : File.t) :
  mem LF (FileChange.patch (file_change_of f)) = false.
Proof.
  unfold file_change_of. simpl.
  destruct (File.patch f) as [p|]; [|reflexivity].
  destruct (truthy p); [|reflexivity].
  now apply mem_replace.
Qed.

End Newline_facts.

(** C10, as stated, fails when the name of a file holds a line feed: only
    the patch is rewritten. *)
Lemma file_name_newline_kept :
  let repo := Sample.files_repo [Sample.odd_file] in
  let text := format_file_changes 13 (fetch_pr_file_changes repo 13) in
  text = "PR#13 - notes" ++ String LF "old.txt: +one|;|+two"
  /\ Str.mem LF text = true.
Proof. vm_compute. split; reflexivity. Qed.

(** C10, amended.  The text built for the file changes of a pull request
    is its entries "PR#<number> - <file name>: <patch>" joined by " || ";
    the entries are those of the files of the pull request, in order, and
    the patch of an entry is the patch of the file with every line feed
    replaced by "|;|"; no patch of an entry holds a line feed, and neither
    does the whole text when no file name does. *)
Theorem file_changes_format (repo : Repository.t) (pr_number : Z) :
  let file_changes := fetch_pr_file_changes repo pr_number in
  let text := format_file_changes pr_number file_changes in
  text = Str.join " || "
           (map (fun c => "PR#" ++ Str.of_Z pr_number ++ " - "
                                ++ FileChange.filename c ++ ": " ++ FileChange.patch c)
                file_changes)
  /\ (forall pr files,
        Repository.get_pull repo pr_number = Ok pr ->
        PullRequest.get_files pr = Ok files ->
        file_changes = map file_change_of files)
  /\ (forall f p,
        File.patch f = Some p ->
        FileChange.patch (file_change_of f) = Str.replace LF "|;|" p)
  /\ Forall (fun c => Str.mem LF (FileChange.patch c) = false) file_changes
  /\ (Forall (fun c => Str.mem LF (FileChange.filename c) = false) file_changes ->
      Str.mem LF text = false).
Proof.
  cbn zeta.
  assert (Hpatch : Forall (fun c => Str.mem LF (FileChange.patch c) = false)
                          (fetch_pr_file_changes repo pr_number)).
  { unfold fetch_pr_file_changes, fetch_pr_file_changes_try.
    destruct (Repository.get_pull repo pr_number) as [pr|e]; simpl; [|constructor].
    destruct (PullRequest.get_files pr) as [files|e]; simpl; [|constructor].
    apply Forall_forall. intros c Hin.
    apply in_map_iff in Hin as [f [<- _]]. apply patch_no_newline. }
  split; [reflexivity|]. split; [|split; [|split; [exact Hpatch|]]].
  - intros pr files Hpr Hfiles.
    unfold fetch_pr_file_changes, fetch_pr_file_changes_try.
    now rewrite Hpr; simpl; rewrite Hfiles.
  - intros f p Hp. unfold file_change_of. simpl. rewrite Hp.
    now destruct p.
  - intros Hnames. unfold format_file_changes.
    apply mem_join; [reflexivity|].
    apply Forall_forall. intros entry Hin.
    apply in_map_iff in Hin as [c [<- Hc]].
    rewrite Forall_forall in Hpatch, Hnames.
    unfold format_entry.
    now rewrite !mem_app, mem_of_Z, (Hnames c Hc), (Hpatch c Hc).
Qed.

Lemma file_changes_format_witness :
  let repo := Sample.files_repo [Sample.plain_file; Sample.plain_file] in
  let text := format_file_changes 13 (fetch_pr_file_changes repo 13) in
  text = "PR#13 - src/main.py: +one|;|+two || PR#13 - src/main.py: +one|;|+two"
  /\ Str.mem LF text = false.
Proof.
  intros repo text. split; [vm_compute; reflexivity|].
  assert (Hnames : Forall (fun c => Str.mem LF (FileChange.filename c) = false)
                          (fetch_pr_file_changes repo 13))
    by (vm_compute; repeat constructor).
  destruct (file_changes_format repo 13) as [_ [_ [_ [_ H]]]].
  exact (H Hnames).
Defined.

(** ** The cache artifact *)

Section Cache_facts.

Context {db : Unicode}.

Local Open Scope list_scope.

Lemma load_dump_option (o : option string) : load (dump (of_option o)) = of_option o.
Proof. now destruct o. Qed.

Lemma load_dump_strings (l : list string) : load (dump (of_strings l)) = of_strings l.
Proof.
  unfold of_strings. simpl. f_equal. rewrite !map_map. reflexivity.
Qed.

Lemma load_dump_linked_pr (l : LinkedPR.t) :
  load (dump (linked_pr_value l)) = linked_pr_value l.
Proof.
  unfold linked_pr_value.
  destruct (LinkedPR.merged_at l), (LinkedPR.merged_by l),
    (LinkedPR.file_changes l), (LinkedPR.commit_messages l); reflexivity.
Qed.

(** The dictionary of an issue has string keys only and is read back
    as it was written. *)
Lemma load_dump_issue_node (n : IssueNode.t) :
  load (dump (issue_node_value n)) = issue_node_value n.
Proof.
  unfold issue_node_value.
  assert (Hprs : map load (map dump (map linked_pr_value (IssueNode.linked_prs n)))
                 = map linked_pr_value (IssueNode.linked_prs n)).
  { rewrite !map_map. apply map_ext. intros l. apply load_dump_linked_pr. }
  assert (Hs : forall l : list string,
             map load (map dump (map VStr l)) = map VStr l).
  { intros l. rewrite !map_map. reflexivity. }
  destruct (IssueNode.meta n) as [m|], (IssueNode.title n) as [t|];
    cbn -[map]; unfold of_strings; cbn [map fst snd key_text dump load];
    rewrite ?Hprs, ?Hs; reflexivity.
Qed.

(** Written and read back, the mapping has the same entries in the
    same order with the same values, under the decimal texts of its
    keys. *)
Lemma cache_round_trip_str (d : Dict.t IssueNode.t) :
  cache_round_trip d = issue_map_value_str d.
Proof.
  unfold cache_round_trip, issue_map_value, issue_map_value_str.
  cbn [dump load]. f_equal. rewrite !map_map. apply map_ext.
  intros [k n]. cbn [fst snd key_text]. f_equal. apply load_dump_issue_node.
Qed.

Lemma cache_round_trip_differs (d : Dict.t IssueNode.t) :
  d <> [] -> cache_round_trip d <> issue_map_value d.
Proof.
  intros Hne. rewrite cache_round_trip_str.
  unfold issue_map_value_str, issue_map_value.
  destruct d as [|[k n] d]; [congruence|]. simpl. intros [=].
Qed.

End Cache_facts.

(** C7 at a repository with one merged pull request whose description is
    "fixes #42": the mapping that is built has the integer key 42, the
    mapping that is read back from the cache has the text key "42" with
    the same value, and the integer key is not found in it. *)
Theorem cache_round_trip_changes_keys :
  let data := build_issue_solver_data Sample.before 500 in
  Dict.keys data = [42%Z]
  /\ (exists node,
        issue_map_value data = VDict [(KInt 42, node)]
        /\ cache_round_trip data = VDict [(KStr "42", node)])
  /\ cache_round_trip data <> issue_map_value data
  /\ (forall d, cache_round_trip data = VDict d -> lookup (KInt 42) d = None).
Proof.
  intros data.
  assert (Hkeys : Dict.keys data = [42%Z]) by (vm_compute; reflexivity).
  split; [exact Hkeys|]. split; [|split].
  - rewrite cache_round_trip_str. unfold issue_map_value, issue_map_value_str.
    destruct data as [|[k n] [|? ?]]; try discriminate.
    injection Hkeys as ->. exists (issue_node_value n). split; reflexivity.
  - apply cache_round_trip_differs. destruct data; [discriminate | congruence].
  - intros d. rewrite cache_round_trip_str. unfold issue_map_value_str.
    destruct data as [|[k n] [|? ?]]; try discriminate.
    intros [= <-]. reflexivity.
Qed.

(* ================================================================== *)
(** * Further properties *)

(** ** Where extracted references come from *)

Section Extraction_sound.

Context {db : Unicode}.

Import Regex RegexFacts.
Local Open Scope list_scope.

(** Every capture of a text is a match of a trigger word, separators,
    [#] and a maximal non-empty run of digits in the lower-cased text. *)
Lemma captured_run_shape (text ds : Text.t) :
  In ds (captured_runs text) ->
  exists (kw : string) (pre seps post : Text.t),
    In kw trigger_phrases
    /\ Text.lower text = pre ++ Text.of_string kw ++ seps ++ 35%N :: ds ++ post
    /\ seps <> [] /\ forallb is_sep seps = true
    /\ ds <> [] /\ forallb Text.is_digit ds = true
    /\ match post with [] => True | c :: _ => Text.is_digit c = false end.
Proof.
  unfold captured_runs. intros Hin.
  apply in_flat_map in Hin as [p [Hp Hds]].
  unfold findall in Hds.
  apply findall_from_match in Hds as [pre [tail [rest [Hs Hm]]]].
  apply match_alt_shape in Hm
    as [kwc [seps [Hkw [-> [Hs1 [Hd1 [Hs2 [Hd2 Hrest]]]]]]]].
  apply in_map_iff in Hkw as [kw [<- Hkw]].
  exists kw, pre, seps, rest. repeat split; auto.
  unfold trigger_phrases. apply in_concat. now exists p.
Qed.

Lemma int_of_digits_nonneg (ds : Text.t) : (0 <= int_of_digits ds)%Z.
Proof.
  unfold int_of_digits.
  assert (Hacc : forall acc, (0 <= acc)%Z ->
              (0 <= fold_left
                      (fun a d => 10 * a + Z.of_N (Text.digit_value d)) ds acc)%Z).
  { induction ds as [|d ds IH]; intros acc Hacc; [exact Hacc|].
    cbn [fold_left]. apply IH. lia. }
  apply Hacc. lia.
Qed.

End Extraction_sound.

(** X1. Every extracted reference is written in the lower-cased text: it
    is the value of a maximal non-empty run of decimal digits that
    follows one of the trigger words, at least one white-space character
    or colon, and [#]. *)
Theorem extracted_reference_has_phrase {db : Unicode} (text : Text.t)
  (refs : list Z) (n : Z) :
  extract_references text = Ok refs ->
  In n refs ->
  exists (kw : string) (pre seps ds post : Text.t),
    In kw trigger_phrases
    /\ Text.lower text
       = (pre ++ Text.of_string kw ++ seps ++ 35%N :: ds ++ post)%list
    /\ seps <> [] /\ forallb Regex.is_sep seps = true
    /\ ds <> [] /\ forallb Text.is_digit ds = true
    /\ match post with [] => True | c :: _ => Text.is_digit c = false end
    /\ n = Regex.int_of_digits ds.
Proof.
  unfold extract_references. intros Hrefs Hin.
  apply RegexFacts.convert_all_inv in Hrefs as [-> _].
  apply in_map_iff in Hin as [ds [<- Hds]].
  destruct (captured_run_shape text ds Hds)
    as [kw [pre [seps [post [Hkw [Hs [Hs1 [Hs2 [Hd1 [Hd2 Hp]]]]]]]]]].
  exists kw, pre, seps, ds, post. repeat split; auto.
Qed.

Lemma extracted_reference_has_phrase_witness :
  exists (kw : string) (pre seps ds post : Text.t),
    In kw trigger_phrases
    /\ Text.lower (Text.of_string "Closes: #12.")
       = (pre ++ Text.of_string kw ++ seps ++ 35%N :: ds ++ post)%list
    /\ seps <> [] /\ forallb Regex.is_sep seps = true
    /\ ds <> [] /\ forallb Text.is_digit ds = true
    /\ match post with [] => True | c :: _ => Text.is_digit c = false end
    /\ 12%Z = Regex.int_of_digits ds.
Proof.
  assert (Hrefs : extract_references (Text.of_string "Closes: #12.") = Ok [12%Z])
    by (vm_compute; reflexivity).
  exact (extracted_reference_has_phrase (Text.of_string "Closes: #12.")
           [12%Z] 12 Hrefs (or_introl eq_refl)).
Defined.

(** X2. No extracted reference is negative. *)
Theorem extracted_references_nonneg {db : Unicode} (text : Text.t) :
  match extract_references text with
  | Ok refs => Forall (fun n => (0 <= n)%Z) refs
  | Raise _ => True
  end.
Proof.
  destruct (extract_references text) as [refs|e] eqn:E; [|exact I].
  unfold extract_references in E.
  apply RegexFacts.convert_all_inv in E as [-> _].
  apply Forall_forall. intros n Hin.
  apply in_map_iff in Hin as [ds [<- _]]. apply int_of_digits_nonneg.
Qed.

(** ** What the scan keeps *)

Section Scan_entries.

Context {db : Unicode}.

Local Open Scope list_scope.
Import DictFacts.

Variable max_prs : Z.

(** The entry that line 177 stores for a pull request. *)
Let kept (listing : list PullRequest.t) (item : Z * PrInfo.t) : Prop :=
  exists pr login refs,
    In pr listing
    /\ PullRequest.merged pr = true
    /\ PullRequest.user pr = Some login
    /\ referenced_issues_of (PullRequest.body pr) = Ok refs
    /\ fst item = PullRequest.number pr
    /\ snd item = {| PrInfo.number := PullRequest.number pr;
                     PrInfo.title := PullRequest.title pr;
                     PrInfo.author := login;
                     PrInfo.merged_at := PullRequest.merged_at pr;
                     PrInfo.merged_by := PullRequest.merged_by pr;
                     PrInfo.referenced_issues := refs |}
    /\ refs <> [].

Lemma scan_step_kept (listing : list PullRequest.t) (pr : PullRequest.t)
  (st : scan_state) :
  In pr listing ->
  Forall (kept listing) (pr_issue_mapping st) ->
  Forall (kept listing) (pr_issue_mapping (fst (scan_step max_prs pr st))).
Proof.
  intros Hin Hst. unfold scan_step.
  destruct (PullRequest.merged pr) eqn:Hm; [|exact Hst]. simpl.
  destruct (PullRequest.user pr) as [login|] eqn:Hu; [|exact Hst]. simpl.
  destruct (referenced_issues_of (PullRequest.body pr)) as [refs|e] eqn:Hr;
    [|exact Hst].
  destruct refs as [|r refs]; [exact Hst|].
  apply Forall_forall. intros item Hitem.
  apply set_in in Hitem as [->|Hitem].
  - exists pr, login, (r :: refs). repeat split; auto. discriminate.
  - rewrite Forall_forall in Hst. now apply Hst.
Qed.

Lemma scan_loop_kept (listing prs : list PullRequest.t) (st : scan_state) :
  incl prs listing ->
  Forall (kept listing) (pr_issue_mapping st) ->
  Forall (kept listing) (pr_issue_mapping (fst (scan_loop max_prs prs st))).
Proof.
  revert st. induction prs as [|pr prs IH]; intros st Hincl Hst; [exact Hst|].
  cbn [scan_loop].
  pose proof (scan_step_kept listing pr st (Hincl pr (or_introl eq_refl)) Hst) as Hstep.
  destruct (scan_step max_prs pr st) as [st' [|]]; simpl in *.
  - apply IH; [|exact Hstep]. intros x Hx. apply Hincl. now right.
  - exact Hstep.
Qed.

(** The counter is the number of merged pull requests looked at, whether
    or not their processing raised; the loop leaves pull requests unread
    only once the counter has reached the cap, after a merged pull
    request processed without error. *)
Lemma scan_loop_seen (prs : list PullRequest.t) (st : scan_state) :
  let out := scan_loop max_prs prs st in
  exists seen,
    prs = seen ++ snd out
    /\ processed_count (fst out)
       = (processed_count st + Z.of_nat (merged_count seen))%Z
    /\ (snd out <> [] ->
        (max_prs <= processed_count (fst out))%Z
        /\ exists before last,
             seen = before ++ [last]
             /\ PullRequest.merged last = true /\ raises last = false).
Proof.
  revert st. induction prs as [|pr prs IH]; intros st; cbn zeta.
  - exists []. simpl. unfold merged_count. simpl.
    split; [reflexivity|]. split; [lia | congruence].
  - cbn [scan_loop].
    assert (Hstep :
      (PullRequest.merged pr = false /\ scan_step max_prs pr st = (st, Continue))
      \/ (PullRequest.merged pr = true
          /\ processed_count (fst (scan_step max_prs pr st))
             = (processed_count st + 1)%Z
          /\ (snd (scan_step max_prs pr st) = Break ->
              raises pr = false
              /\ (max_prs <= processed_count st + 1)%Z))).
    { unfold scan_step, raises.
      destruct (PullRequest.merged pr); [right | now left].
      split; [reflexivity|]. cbn [negb andb].
      destruct (PullRequest.user pr); cbn [orb fst snd processed_count];
        [|split; [reflexivity | discriminate]].
      destruct (referenced_issues_of (PullRequest.body pr));
        cbn [fst snd processed_count];
        [|split; [reflexivity | discriminate]].
      split; [reflexivity|].
      destruct (Z.geb_spec (processed_count st + 1) max_prs);
        [intros _; split; [reflexivity | lia] | discriminate]. }
    destruct Hstep as [[Hm Hstep] | [Hm [Hc Hb]]].
    + rewrite Hstep. destruct (IH st) as [seen [Hs [Hcount Hrest]]].
      exists (pr :: seen). split; [simpl; now rewrite <- Hs|].
      split; [rewrite Hcount, merged_count_cons, Hm; lia|].
      intros Hne. destruct (Hrest Hne) as [Hcap [before [last [-> Hl]]]].
      split; [exact Hcap|]. now exists (pr :: before), last.
    + destruct (scan_step max_prs pr st) as [st' [|]]; simpl in Hc, Hb.
      * destruct (IH st') as [seen [Hs [Hcount Hrest]]].
        exists (pr :: seen). split; [simpl; now rewrite <- Hs|].
        split; [rewrite Hcount, Hc, merged_count_cons, Hm; lia|].
        intros Hne. destruct (Hrest Hne) as [Hcap [before [last [-> Hl]]]].
        split; [exact Hcap|]. now exists (pr :: before), last.
      * destruct (Hb eq_refl) as [Hr Hcap].
        exists [pr]. simpl. split; [reflexivity|].
        split; [rewrite Hc, merged_count_cons, Hm; unfold merged_count; simpl; lia|].
        intros _. split; [lia|]. now exists [], pr.
Qed.

(** Keys are never removed by later iterations. *)
Lemma scan_step_keys (pr : PullRequest.t) (st : scan_state) (k : Z) :
  In k (Dict.keys (pr_issue_mapping st)) ->
  In k (Dict.keys (pr_issue_mapping (fst (scan_step max_prs pr st)))).
Proof.
  intros Hk. unfold scan_step.
  destruct (PullRequest.merged pr); [|exact Hk]. simpl.
  destruct (PullRequest.user pr); [|exact Hk]. simpl.
  destruct (referenced_issues_of (PullRequest.body pr)) as [refs|e];
    [|exact Hk].
  destruct refs as [|r refs]; [exact Hk|]. simpl.
  rewrite keys_set. destruct (Dict.mem _ _); [exact Hk|].
  apply in_or_app. now left.
Qed.

Lemma scan_loop_keys (prs : list PullRequest.t) (st : scan_state) (k : Z) :
  In k (Dict.keys (pr_issue_mapping st)) ->
  In k (Dict.keys (pr_issue_mapping (fst (scan_loop max_prs prs st)))).
Proof.
  revert st. induction prs as [|pr prs IH]; intros st Hk; [exact Hk|].
  cbn [scan_loop]. pose proof (scan_step_keys pr st k Hk) as Hstep.
  destruct (scan_step max_prs pr st) as [st' [|]]; simpl in *; auto.
Qed.

Lemma scan_step_adds (pr : PullRequest.t) (st : scan_state) (refs : list Z) :
  PullRequest.merged pr = true -> PullRequest.user pr <> None ->
  referenced_issues_of (PullRequest.body pr) = Ok refs -> refs <> [] ->
  In (PullRequest.number pr)
     (Dict.keys (pr_issue_mapping (fst (scan_step max_prs pr st)))).
Proof.
  intros Hm Hu Hr Hne. unfold scan_step. rewrite Hm. simpl.
  destruct (PullRequest.user pr); [|congruence]. simpl.
  rewrite Hr. destruct refs as [|r refs]; [congruence|]. simpl.
  rewrite keys_set. unfold Dict.mem.
  destruct (Dict.get (PullRequest.number pr) (pr_issue_mapping st)) eqn:E.
  - apply get_some_in in E.
    change (In (fst (PullRequest.number pr, t)) (map fst (pr_issue_mapping st))).
    now apply in_map.
  - apply in_or_app. right. now left.
Qed.

Lemma scan_loop_complete (prs : list PullRequest.t) (st : scan_state)
  (seen : list PullRequest.t) (pr : PullRequest.t) (refs : list Z) :
  prs = seen ++ snd (scan_loop max_prs prs st) ->
  In pr seen ->
  PullRequest.merged pr = true -> PullRequest.user pr <> None ->
  referenced_issues_of (PullRequest.body pr) = Ok refs -> refs <> [] ->
  In (PullRequest.number pr)
     (Dict.keys (pr_issue_mapping (fst (scan_loop max_prs prs st)))).
Proof.
  revert st seen.
  induction prs as [|p prs IH]; intros st seen Hs Hin Hm Hu Hr Hne.
  - simpl in Hs. destruct seen; [contradiction | discriminate].
  - cbn [scan_loop] in *.
    pose proof (scan_step_adds p st refs) as Hadd.
    destruct (scan_step max_prs p st) as [st' [|]] eqn:Hstep; simpl in *.
    + destruct (scan_loop_seen prs st') as [seen' [Hs' _]].
      assert (seen = p :: seen') as ->.
      { apply (app_inv_tail (snd (scan_loop max_prs prs st'))).
        rewrite <- Hs. simpl. now rewrite <- Hs'. }
      destruct Hin as [<-|Hin].
      * apply scan_loop_keys. now apply Hadd.
      * apply (IH st' seen'); auto.
    + assert (seen = [p]) as ->
        by (apply (app_inv_tail prs); now rewrite <- Hs).
      destruct Hin as [<-|[]]. now apply Hadd.
Qed.

End Scan_entries.

(** X3. Every entry of the mapping returned by the scan comes from a
    merged pull request of the listing that has a user and whose
    references were extracted, at least one of them; it is filed under
    the number of the pull request and carries its title, user, merge
    time, merging user and references.  A pull request that is not
    merged, or has no reference, is never an entry. *)
Theorem scan_entries_are_merged {db : Unicode} (repo : Repository.t)
  (max_prs : Z) (k : Z) (info : PrInfo.t) :
  In (k, info) (pr_issue_mapping (fst (scan repo max_prs))) ->
  exists pr login refs,
    In pr (Repository.get_pulls repo)
    /\ PullRequest.merged pr = true
    /\ PullRequest.user pr = Some login
    /\ referenced_issues_of (PullRequest.body pr) = Ok refs
    /\ k = PullRequest.number pr
    /\ info = {| PrInfo.number := PullRequest.number pr;
                 PrInfo.title := PullRequest.title pr;
                 PrInfo.author := login;
                 PrInfo.merged_at := PullRequest.merged_at pr;
                 PrInfo.merged_by := PullRequest.merged_by pr;
                 PrInfo.referenced_issues := refs |}
    /\ PrInfo.referenced_issues info <> [].
Proof.
  intros Hin.
  pose proof (scan_loop_kept max_prs (Repository.get_pulls repo)
                (Repository.get_pulls repo) (mk_scan [] 0)
                (incl_refl _) (Forall_nil _)) as Hkept.
  rewrite Forall_forall in Hkept.
  destruct (Hkept _ Hin) as [pr [login [refs [H1 [H2 [H3 [H4 [H5 [H6 H7]]]]]]]]].
  simpl in H5, H6. exists pr, login, refs. subst info. simpl. auto 10.
Qed.

Lemma scan_entries_are_merged_witness :
  exists pr login refs,
    In pr (Repository.get_pulls Sample.dup_repo)
    /\ PullRequest.merged pr = true
    /\ PullRequest.user pr = Some login
    /\ referenced_issues_of (PullRequest.body pr) = Ok refs
    /\ 7%Z = PullRequest.number pr
    /\ Sample.dup_info
       = {| PrInfo.number := PullRequest.number pr;
            PrInfo.title := PullRequest.title pr;
            PrInfo.author := login;
            PrInfo.merged_at := PullRequest.merged_at pr;
            PrInfo.merged_by := PullRequest.merged_by pr;
            PrInfo.referenced_issues := refs |}
    /\ PrInfo.referenced_issues Sample.dup_info <> [].
Proof.
  assert (Hin : In (7%Z, Sample.dup_info)
                   (pr_issue_mapping (fst (scan Sample.dup_repo 500))))
    by (vm_compute; left; reflexivity).
  exact (scan_entries_are_merged Sample.dup_repo 500 7 Sample.dup_info Hin).
Defined.

(** X4. Whatever fails during the scan, the counter at its end is the
    number of merged pull requests it has looked at, those whose
    processing raised included; pull requests are left unread only when
    the counter has reached the cap, and then the last one looked at is
    a merged pull request that was processed without error. *)
Theorem scan_counter_counts_seen {db : Unicode} (repo : Repository.t)
  (max_prs : Z) :
  let out := scan repo max_prs in
  exists seen,
    Repository.get_pulls repo = (seen ++ snd out)%list
    /\ processed_count (fst out) = Z.of_nat (merged_count seen)
    /\ (snd out <> [] ->
        (max_prs <= processed_count (fst out))%Z
        /\ exists before last,
             seen = (before ++ [last])%list
             /\ PullRequest.merged last = true /\ raises last = false).
Proof.
  cbn zeta. unfold scan.
  destruct (scan_loop_seen max_prs (Repository.get_pulls repo) (mk_scan [] 0))
    as [seen [Hs [Hc Hrest]]].
  exists seen. simpl in Hc. auto.
Qed.

(** X5. Every merged pull request that the scan has looked at, that has
    a user and whose references are extracted without a conversion error,
    at least one of them, has its number among the keys of the returned
    mapping. *)
Theorem scan_keeps_referencing {db : Unicode} (repo : Repository.t)
  (max_prs : Z) (seen : list PullRequest.t) (pr : PullRequest.t)
  (refs : list Z) :
  Repository.get_pulls repo = (seen ++ snd (scan repo max_prs))%list ->
  In pr seen ->
  PullRequest.merged pr = true -> PullRequest.user pr <> None ->
  referenced_issues_of (PullRequest.body pr) = Ok refs -> refs <> [] ->
  In (PullRequest.number pr)
     (Dict.keys (pr_issue_mapping (fst (scan repo max_prs)))).
Proof. unfold scan. apply scan_loop_complete. Qed.

Lemma scan_keeps_referencing_witness :
  let repo := Sample.repo [Sample.unmerged_pr 9; Sample.merged_pr 8 "fixes #1";
                           Sample.merged_pr 5 "no reference";
                           Sample.merged_pr 4 "closes #2"] "open" in
  In 8%Z (Dict.keys (pr_issue_mapping (fst (scan repo 2)))).
Proof.
  intros repo.
  assert (Hs : Repository.get_pulls repo
               = ([Sample.unmerged_pr 9; Sample.merged_pr 8 "fixes #1";
                   Sample.merged_pr 5 "no reference"]
                  ++ snd (scan repo 2))%list)
    by (vm_compute; reflexivity).
  assert (Hr : referenced_issues_of
                 (PullRequest.body (Sample.merged_pr 8 "fixes #1")) = Ok [1%Z])
    by (vm_compute; reflexivity).
  exact (scan_keeps_referencing repo 2 _ (Sample.merged_pr 8 "fixes #1") [1%Z]
           Hs (or_intror (or_introl eq_refl)) eq_refl
           ltac:(discriminate) Hr ltac:(discriminate)).
Defined.

(** ** What the inversion builds *)

Section Invert_more.

Context {db : Unicode}.

Local Open Scope list_scope.
Import DictFacts.

Lemma update_forall (P : Z * IssueNode.t -> Prop) (n : Z)
  (f : IssueNode.t -> IssueNode.t) (D : Dict.t IssueNode.t) :
  (forall node, P (n, node) -> P (n, f node)) ->
  Forall P D -> Forall P (Dict.update n f D).
Proof.
  intros Hf H. induction H as [|[k v] D Hkv HD IH]; simpl; [constructor|].
  destruct (Z.eqb_spec n k) as [->|Hne]; constructor; auto.
Qed.

Lemma set_forall (P : Z * IssueNode.t -> Prop) (n : Z) (v : IssueNode.t)
  (D : Dict.t IssueNode.t) :
  P (n, v) -> Forall P D -> Forall P (Dict.set n v D).
Proof.
  intros Hv H. apply Forall_forall. intros item Hin.
  apply set_in in Hin as [->|Hin]; [exact Hv|].
  rewrite Forall_forall in H. now apply H.
Qed.

(** A property of the entries that holds for a new node and survives the
    appending of a stub holds throughout the inversion. *)
Lemma add_link_forall (P : Z * IssueNode.t -> Prop) (d : PrInfo.t)
  (isd : Dict.t IssueNode.t) (n : Z) :
  P (n, IssueNode.fresh n) ->
  (forall node, P (n, node) ->
     P (n, IssueNode.with_linked_prs (IssueNode.linked_prs node ++ [stub_of d]) node)) ->
  Forall P isd -> Forall P (add_link d isd n).
Proof.
  intros Hfresh Hstep H. unfold add_link.
  apply update_forall; [exact Hstep|].
  destruct (Dict.mem n isd); [exact H|]. now apply set_forall.
Qed.

Lemma invert_forall (P : Z * IssueNode.t -> Prop) (m : Dict.t PrInfo.t) :
  (forall item n, In item m -> In n (PrInfo.referenced_issues (snd item)) ->
     P (n, IssueNode.fresh n)) ->
  (forall item n node, In item m -> In n (PrInfo.referenced_issues (snd item)) ->
     P (n, node) ->
     P (n, IssueNode.with_linked_prs
             (IssueNode.linked_prs node ++ [stub_of (snd item)]) node)) ->
  Forall P (invert m).
Proof.
  intros Hfresh Hstep. unfold invert.
  assert (H : forall m' isd, incl m' m -> Forall P isd ->
                Forall P (fold_left add_links m' isd)).
  { induction m' as [|item m' IH]; intros isd Hincl Hisd; [exact Hisd|].
    cbn [fold_left]. apply IH; [intros x Hx; apply Hincl; now right|].
    unfold add_links.
    assert (Hitem : In item m) by (apply Hincl; now left).
    assert (Hr : incl (PrInfo.referenced_issues (snd item))
                      (PrInfo.referenced_issues (snd item))) by apply incl_refl.
    revert Hr. generalize (PrInfo.referenced_issues (snd item)) at 1 3 as refs.
    intros refs. revert isd Hisd.
    induction refs as [|r refs IHr]; intros isd Hisd Hr; [exact Hisd|].
    cbn [fold_left]. apply IHr; [|intros x Hx; apply Hr; now right].
    assert (Hin : In r (PrInfo.referenced_issues (snd item))) by (apply Hr; now left).
    apply add_link_forall; eauto. }
  apply H; [apply incl_refl | constructor].
Qed.

Lemma add_link_keys (d : PrInfo.t) (isd : Dict.t IssueNode.t) (n x : Z) :
  In x (Dict.keys (add_link d isd n)) <-> x = n \/ In x (Dict.keys isd).
Proof.
  unfold add_link. rewrite keys_update. unfold Dict.mem.
  destruct (Dict.get n isd) eqn:E.
  - split; [tauto|]. intros [->|H]; [|exact H].
    apply get_some_in in E.
    change (In (fst (n, t)) (map fst isd)). now apply in_map.
  - rewrite keys_set. unfold Dict.mem. rewrite E, in_app_iff. simpl.
    split; intros H; [destruct H as [H|[H|[]]]; auto | destruct H as [->|H]; auto].
Qed.

Lemma fold_add_links_keys (m : Dict.t PrInfo.t) (isd : Dict.t IssueNode.t) (x : Z) :
  In x (Dict.keys (fold_left add_links m isd))
  <-> (exists item, In item m /\ In x (PrInfo.referenced_issues (snd item)))
      \/ In x (Dict.keys isd).
Proof.
  revert isd. induction m as [|item m IH]; intros isd.
  - simpl. split; [tauto | intros [[i [[] _]]|H]; exact H].
  - cbn [fold_left]. rewrite IH.
    assert (Hone : In x (Dict.keys (add_links isd item))
                   <-> In x (PrInfo.referenced_issues (snd item))
                       \/ In x (Dict.keys isd)).
    { unfold add_links. generalize (PrInfo.referenced_issues (snd item)) as refs.
      intros refs. revert isd. induction refs as [|r refs IHr]; intros isd.
      - simpl. tauto.
      - cbn [fold_left]. rewrite IHr, add_link_keys. simpl.
        split; intros H; intuition (subst; auto). }
    rewrite Hone. split.
    + intros [[i [Hi Hx]]|[Hx|Hx]].
      * left. exists i. split; [now right | exact Hx].
      * left. exists item. split; [now left | exact Hx].
      * now right.
    + intros [[i [[<-|Hi] Hx]]|Hx].
      * right. now left.
      * left. now exists i.
      * right. now right.
Qed.

(** The number of stubs of an issue, 0 when the issue is absent. *)
Lemma add_link_length (d : PrInfo.t) (isd : Dict.t IssueNode.t) (n' n : Z) :
  List.length (match Dict.get n (add_link d isd n') with
               | Some node => IssueNode.linked_prs node
               | None => []
               end)
  = (List.length (match Dict.get n isd with
                  | Some node => IssueNode.linked_prs node
                  | None => []
                  end)
     + if (n' =? n)%Z then 1 else 0)%nat.
Proof.
  unfold add_link, Dict.mem.
  destruct (Z.eqb_spec n' n) as [->|Hne].
  - rewrite get_update_same.
    destruct (Dict.get n isd) as [node|] eqn:E.
    + rewrite E. simpl. now rewrite length_app.
    + rewrite get_set_same. reflexivity.
  - rewrite get_update_other by congruence.
    destruct (Dict.get n' isd); [now rewrite Nat.add_0_r|].
    rewrite get_set_other by congruence. now rewrite Nat.add_0_r.
Qed.

Lemma invert_length (m : Dict.t PrInfo.t) (n : Z) :
  List.length (match Dict.get n (invert m) with
               | Some node => IssueNode.linked_prs node
               | None => []
               end)
  = list_sum (map (fun item =>
                     count_occ Z.eq_dec (PrInfo.referenced_issues (snd item)) n) m).
Proof.
  unfold invert.
  assert (H : forall isd,
    List.length (match Dict.get n (fold_left add_links m isd) with
                 | Some node => IssueNode.linked_prs node
                 | None => []
                 end)
    = (List.length (match Dict.get n isd with
                    | Some node => IssueNode.linked_prs node
                    | None => []
                    end)
       + list_sum (map (fun item =>
                     count_occ Z.eq_dec (PrInfo.referenced_issues (snd item)) n) m))%nat).
  { induction m as [|item m IH]; intros isd; [simpl; lia|].
    cbn [fold_left]. rewrite IH.
    assert (Hone :
      List.length (match Dict.get n (add_links isd item) with
                   | Some node => IssueNode.linked_prs node
                   | None => []
                   end)
      = (List.length (match Dict.get n isd with
                      | Some node => IssueNode.linked_prs node
                      | None => []
                      end)
         + count_occ Z.eq_dec (PrInfo.referenced_issues (snd item)) n)%nat).
    { unfold add_links. generalize (PrInfo.referenced_issues (snd item)) as refs.
      intros refs. revert isd. induction refs as [|r refs IHr]; intros isd.
      - simpl. lia.
      - cbn [fold_left count_occ]. rewrite IHr, add_link_length.
        destruct (Z.eq_dec r n) as [->|Hne].
        + rewrite Z.eqb_refl. lia.
        + destruct (Z.eqb_spec r n); [contradiction | lia]. }
    rewrite Hone. unfold list_sum. simpl. lia. }
  rewrite H. reflexivity.
Qed.

End Invert_more.

(** X6. An issue number is a key of the inverted mapping exactly when
    some pull request of the mapping refers to it. *)
Theorem invert_keys_are_referenced (m : Dict.t PrInfo.t) (n : Z) :
  In n (Dict.keys (invert m))
  <-> exists item, In item m /\ In n (PrInfo.referenced_issues (snd item)).
Proof.
  unfold invert. rewrite fold_add_links_keys. simpl. tauto.
Qed.

(** ** What the enrichment stores *)

Section Enrich_more.

Context {db : Unicode}.

Local Open Scope list_scope.
Variable repo : Repository.t.

Lemma str_app_assoc (a b c : string) : ((a ++ b) ++ c = a ++ (b ++ c))%string.
Proof. induction a as [|x a IH]; simpl; [reflexivity | now rewrite IH]. Qed.

Lemma str_app_nil_r (a : string) : (a ++ "" = a)%string.
Proof. induction a as [|x a IH]; simpl; [reflexivity | now rewrite IH]. Qed.

(** The loop of line 221, accumulator by accumulator. *)
Lemma enrich_prs_stubs (l : list LinkedPR.t) (acc : linked_acc) :
  acc_prs (fold_left (enrich_pr repo) l acc)
  = acc_prs acc
    ++ map (fun pr_info =>
              {| LinkedPR.number := LinkedPR.number pr_info;
                 LinkedPR.title := LinkedPR.title pr_info;
                 LinkedPR.merged_at := LinkedPR.merged_at pr_info;
                 LinkedPR.merged_by := LinkedPR.merged_by pr_info;
                 LinkedPR.file_changes :=
                   Some (format_file_changes (LinkedPR.number pr_info)
                           (fetch_pr_file_changes repo (LinkedPR.number pr_info)));
                 LinkedPR.commit_messages :=
                   Some (fetch_commit_messages repo (LinkedPR.number pr_info)) |})
          l.
Proof.
  revert acc. induction l as [|x l IH]; intros acc; simpl.
  - now rewrite app_nil_r.
  - rewrite IH. simpl. now rewrite <- app_assoc.
Qed.

Lemma enrich_prs_file_changes (l : list LinkedPR.t) (acc : linked_acc) :
  acc_file_changes (fold_left (enrich_pr repo) l acc)
  = acc_file_changes acc
    ++ map (fun pr_info =>
              format_file_changes (LinkedPR.number pr_info)
                (fetch_pr_file_changes repo (LinkedPR.number pr_info)))
           l.
Proof.
  revert acc. induction l as [|x l IH]; intros acc; simpl.
  - now rewrite app_nil_r.
  - rewrite IH. simpl. now rewrite <- app_assoc.
Qed.

Lemma enrich_prs_commit_messages (l : list LinkedPR.t) (acc : linked_acc) :
  acc_commit_messages (fold_left (enrich_pr repo) l acc)
  = (acc_commit_messages acc
     ++ fold_right String.append ""
          (map (fun pr_info =>
                  let msgs := fetch_commit_messages repo (LinkedPR.number pr_info) in
                  if Str.truthy msgs then COMMIT_MSG_DELIMITER ++ msgs else "")
               l))%string.
Proof.
  revert acc. induction l as [|x l IH]; intros acc.
  - simpl. now rewrite str_app_nil_r.
  - cbn [fold_left map fold_right]. rewrite IH. cbn [enrich_pr acc_commit_messages].
    now rewrite str_app_assoc.
Qed.

Lemma enrich_prs_solvers (l : list LinkedPR.t) (acc : linked_acc) :
  acc_solvers (fold_left (enrich_pr repo) l acc)
  = fold_left (fun s x => set_add x s)
      (flat_map (fun pr_info => get_pr_contributors repo (LinkedPR.number pr_info)) l)
      (acc_solvers acc).
Proof.
  revert acc. induction l as [|x l IH]; intros acc; [reflexivity|].
  cbn [fold_left flat_map]. rewrite IH, fold_left_app. reflexivity.
Qed.

Lemma set_add_in (x y : string) (s : list string) :
  In y (set_add x s) <-> y = x \/ In y s.
Proof.
  unfold set_add. destruct (existsb (String.eqb x) s) eqn:E.
  - split; [tauto|]. intros [->|H]; [|exact H].
    apply existsb_exists in E as [z [Hz Heq]].
    apply String.eqb_eq in Heq. now subst.
  - rewrite in_app_iff. simpl.
    split; [intros [H|[H|[]]]; auto | intros [H|H]; auto].
Qed.

Lemma set_add_nodup (x : string) (s : list string) :
  NoDup s -> NoDup (set_add x s).
Proof.
  intros H. unfold set_add. destruct (existsb (String.eqb x) s) eqn:E; [exact H|].
  apply NoDup_app; [exact H | repeat constructor; simpl; tauto |].
  intros y Hy [Heq|[]]. subst y.
  assert (Hex : existsb (String.eqb x) s = true)
    by (apply existsb_exists; exists x; split; [exact Hy | apply String.eqb_refl]).
  congruence.
Qed.

Lemma fold_set_add (l s : list string) :
  NoDup s ->
  NoDup (fold_left (fun s x => set_add x s) l s)
  /\ forall y, In y (fold_left (fun s x => set_add x s) l s) <-> In y l \/ In y s.
Proof.
  revert s. induction l as [|x l IH]; intros s Hs; simpl.
  - split; [exact Hs | tauto].
  - destruct (IH (set_add x s) (set_add_nodup x s Hs)) as [Hnd Hin].
    split; [exact Hnd|]. intros y. rewrite Hin, set_add_in.
    split; intros H; intuition (subst; auto).
Qed.

(** The nodes of the inverted mapping are new nodes with stubs. *)
Lemma invert_nodes_fresh (m : Dict.t PrInfo.t) :
  mapping_wf m ->
  Forall (fun item =>
            snd item
            = IssueNode.with_linked_prs (IssueNode.linked_prs (snd item))
                (IssueNode.fresh (fst item))
            /\ Forall (fun l => exists d, In (PrInfo.number d, d) m
                                          /\ In (fst item) (PrInfo.referenced_issues d)
                                          /\ l = stub_of d)
                      (IssueNode.linked_prs (snd item)))
         (invert m).
Proof.
  intros Hwf. apply invert_forall.
  - intros item n _ _. simpl. split; [reflexivity | constructor].
  - intros [k d] n node Hin Hn [Hnode Hstubs]. simpl in *. split.
    + rewrite Hnode at 2. reflexivity.
    + apply Forall_app. split; [exact Hstubs|]. constructor; [|constructor].
      exists d. destruct Hwf as [_ Hkey]. rewrite Forall_forall in Hkey.
      specialize (Hkey _ Hin). simpl in Hkey. subst k. auto.
Qed.

End Enrich_more.

Section Contributors.

Context {db : Unicode}.

Local Open Scope list_scope.

Lemma add_author_fold (commits : list Commit.t) (s : list string) :
  NoDup s ->
  NoDup (fold_left add_author commits s)
  /\ forall y, In y (fold_left add_author commits s)
               <-> In y s
                   \/ (y <> "" /\ exists c, In c commits /\ Commit.author c = Some y).
Proof.
  revert s. induction commits as [|c commits IH]; intros s Hs; simpl.
  - split; [exact Hs|]. intros y. split; [tauto|].
    intros [H|[_ [c [[] _]]]]. exact H.
  - assert (Hs' : NoDup (add_author s c)).
    { unfold add_author. destruct (Commit.author c) as [login|]; [|exact Hs].
      destruct (Str.truthy login); [now apply set_add_nodup | exact Hs]. }
    destruct (IH _ Hs') as [Hnd Hin]. split; [exact Hnd|].
    intros y. rewrite Hin. unfold add_author.
    destruct (Commit.author c) as [login|] eqn:Ha.
    + destruct login as [|a login]; simpl.
      * split.
        -- intros [H|[Hy [c' [Hc' Hy']]]]; [now left|].
           right. split; [exact Hy|]. exists c'. auto.
        -- intros [H|[Hy [c' [[<-|Hc'] Hy']]]]; [now left | congruence |].
           right. split; [exact Hy|]. now exists c'.
      * rewrite set_add_in. split.
        -- intros [[->|H]|[Hy [c' [Hc' Hy']]]].
           ++ right. split; [discriminate|]. exists c. auto.
           ++ now left.
           ++ right. split; [exact Hy|]. exists c'. auto.
        -- intros [H|[Hy [c' [[<-|Hc'] Hy']]]].
           ++ left. now right.
           ++ left. left. congruence.
           ++ right. split; [exact Hy|]. now exists c'.
    + split.
      * intros [H|[Hy [c' [Hc' Hy']]]]; [now left|].
        right. split; [exact Hy|]. exists c'. auto.
      * intros [H|[Hy [c' [[<-|Hc'] Hy']]]]; [now left | congruence |].
        right. split; [exact Hy|]. now exists c'.
Qed.

Lemma contributors_nonempty (repo : Repository.t) (pr_number : Z) (x : string) :
  In x (get_pr_contributors repo pr_number) -> x <> "".
Proof.
  unfold get_pr_contributors, get_pr_contributors_try.
  destruct (Repository.get_pull repo pr_number) as [pr|e]; simpl; [|tauto].
  destruct (PullRequest.get_commits pr) as [commits|e]; simpl; [|tauto].
  intros H. apply (add_author_fold commits [] (NoDup_nil _)) in H.
  destruct H as [[]|[H _]]. exact H.
Qed.

End Contributors.

(** X7. The contributors of a pull request are returned without
    duplicates and none is the empty text; when the pull request and its
    commits are fetched, they are exactly the non-empty logins of the
    authors of its commits. *)
Theorem contributors_are_commit_authors (repo : Repository.t) (pr_number : Z) :
  NoDup (get_pr_contributors repo pr_number)
  /\ ~ In "" (get_pr_contributors repo pr_number)
  /\ forall pr commits,
       Repository.get_pull repo pr_number = Ok pr ->
       PullRequest.get_commits pr = Ok commits ->
       forall x, In x (get_pr_contributors repo pr_number)
                 <-> (x <> "" /\ exists c, In c commits /\ Commit.author c = Some x).
Proof.
  split; [|split].
  - unfold get_pr_contributors, get_pr_contributors_try.
    destruct (Repository.get_pull repo pr_number) as [pr|e]; simpl; [|constructor].
    destruct (PullRequest.get_commits pr) as [commits|e]; simpl; [|constructor].
    apply (add_author_fold commits [] (NoDup_nil _)).
  - intros H. now apply (contributors_nonempty repo pr_number "" H).
  - intros pr commits Hpr Hc x.
    unfold get_pr_contributors, get_pr_contributors_try.
    rewrite Hpr. simpl. rewrite Hc. simpl.
    destruct (add_author_fold commits [] (NoDup_nil _)) as [_ H].
    rewrite H. simpl. tauto.
Qed.

Lemma contributors_are_commit_authors_witness :
  In "alice" (get_pr_contributors Sample.two_solvers_repo 10)
  <-> ("alice" <> "" /\ exists c,
         In c [Commit.mk "Add a test" (Some "bob");
               Commit.mk "Review remarks" (Some "alice");
               Commit.mk "Merge branch" None]
         /\ Commit.author c = Some "alice").
Proof.
  destruct (contributors_are_commit_authors Sample.two_solvers_repo 10)
    as [_ [_ H]].
  exact (H _ _ eq_refl eq_refl "alice").
Defined.

(** ** Failures of the remote source *)

Section Failure_facts.

Local Open Scope list_scope.

Variable repo : Repository.t.

Lemma fold_set_add_in (l s : list string) (y : string) :
  In y (fold_left (fun s x => set_add x s) l s) <-> In y l \/ In y s.
Proof.
  revert s. induction l as [|x l IH]; intros s; simpl; [tauto|].
  rewrite IH, set_add_in. split; intros Hy; intuition (subst; auto).
Qed.

(** What the loop of line 221 leaves in an issue, whether or not the
    fetch of the issue and the fetches of its pull requests raise. *)
Lemma enrich_issue_fields (node : IssueNode.t) :
  IssueNode.linked_prs (enrich_issue repo node)
  = map (fun pr_info =>
           {| LinkedPR.number := LinkedPR.number pr_info;
              LinkedPR.title := LinkedPR.title pr_info;
              LinkedPR.merged_at := LinkedPR.merged_at pr_info;
              LinkedPR.merged_by := LinkedPR.merged_by pr_info;
              LinkedPR.file_changes :=
                Some (format_file_changes (LinkedPR.number pr_info)
                        (fetch_pr_file_changes repo (LinkedPR.number pr_info)));
              LinkedPR.commit_messages :=
                Some (fetch_commit_messages repo (LinkedPR.number pr_info)) |})
        (IssueNode.linked_prs node)
  /\ IssueNode.file_changes (enrich_issue repo node)
     = IssueNode.file_changes node
       ++ map (fun pr_info =>
                 format_file_changes (LinkedPR.number pr_info)
                   (fetch_pr_file_changes repo (LinkedPR.number pr_info)))
              (IssueNode.linked_prs node)
  /\ (forall x,
        In x (IssueNode.solvers (enrich_issue repo node))
        <-> In x (IssueNode.solvers node)
            \/ exists pr_info,
                 In pr_info (IssueNode.linked_prs node)
                 /\ In x (get_pr_contributors repo (LinkedPR.number pr_info))).
Proof.
  unfold enrich_issue.
  cbn [IssueNode.linked_prs IssueNode.file_changes IssueNode.solvers].
  destruct (enrich_meta_fields repo node) as [_ [Hl [Hs [Hf _]]]].
  rewrite enrich_prs_stubs, enrich_prs_file_changes, enrich_prs_solvers.
  cbn [acc_prs acc_file_changes acc_solvers app]. rewrite Hl, Hs, Hf.
  split; [reflexivity|]. split; [reflexivity|].
  intros x. rewrite fold_set_add_in, in_flat_map. tauto.
Qed.

Lemma enrich_issue_unfetched (node : IssueNode.t) (e : string) :
  Repository.get_issue repo (IssueNode.issue_number node) = Raise e ->
  IssueNode.title (enrich_issue repo node) = IssueNode.title node
  /\ IssueNode.meta (enrich_issue repo node) = IssueNode.meta node.
Proof.
  intros He. unfold enrich_issue, enrich_meta. rewrite He. split; reflexivity.
Qed.

Lemma pull_failure_defaults (number : Z) (e : string) :
  Repository.get_pull repo number = Raise e ->
  fetch_pr_file_changes repo number = []
  /\ fetch_commit_messages repo number = ""
  /\ get_pr_contributors repo number = [].
Proof.
  intros He.
  unfold fetch_pr_file_changes, fetch_pr_file_changes_try,
    fetch_commit_messages, fetch_commit_messages_try,
    get_pr_contributors, get_pr_contributors_try.
  rewrite He. repeat split.
Qed.

End Failure_facts.

(** C9. The four fetching functions return a value whatever the remote
    source does: when a call made on their behalf raises, the issue
    details are the record of empty texts, the file changes and the
    contributors are the empty list, and the commit messages are the
    empty text.  The loops that call them are not cut short by a failure.
    Whatever raises, the enrichment gives, at the place of every issue of
    the mapping, an issue under the same key in which every linked pull
    request, in order, has received its file-change text and its commit
    messages, the file-change texts have been appended one per linked
    pull request, and the contributors are those the issue had and those
    of its linked pull requests; a linked pull request that cannot be
    fetched receives empty texts, and an issue that cannot be fetched
    keeps its title and has no further field set, while its linked pull
    requests are processed all the same.  The flattening gives, for
    every issue of the mapping and each of its contributors (or
    "unknown"), a row with the number of the issue, the contributor and
    the count of linked pull requests; the body and the comments of the
    row are empty when the issue cannot be fetched. *)
Theorem fetch_failures_give_defaults (repo : Repository.t) (number : Z) (e : string) :
  (Repository.get_issue repo number = Raise e ->
   get_issue_details repo number = IssueDetails.empty)
  /\ (forall issue,
        Repository.get_issue repo number = Ok issue ->
        Issue.get_comments issue = Raise e ->
        get_issue_details repo number = IssueDetails.empty)
  /\ (Repository.get_pull repo number = Raise e ->
      fetch_pr_file_changes repo number = []
      /\ fetch_commit_messages repo number = ""
      /\ get_pr_contributors repo number = [])
  /\ (forall pr,
        Repository.get_pull repo number = Ok pr ->
        PullRequest.get_files pr = Raise e ->
        fetch_pr_file_changes repo number = [])
  /\ (forall pr,
        Repository.get_pull repo number = Ok pr ->
        PullRequest.get_commits pr = Raise e ->
        fetch_commit_messages repo number = ""
        /\ get_pr_contributors repo number = [])
  /\ (forall (issue_solver_data : Dict.t IssueNode.t) (i : nat) (key : Z)
             (node : IssueNode.t),
        nth_error issue_solver_data i = Some (key, node) ->
        exists node',
          nth_error (enrich repo issue_solver_data) i = Some (key, node')
          /\ List.length (enrich repo issue_solver_data)
             = List.length issue_solver_data
          /\ IssueNode.issue_number node' = IssueNode.issue_number node
          /\ IssueNode.linked_prs node'
             = map (fun pr_info =>
                      {| LinkedPR.number := LinkedPR.number pr_info;
                         LinkedPR.title := LinkedPR.title pr_info;
                         LinkedPR.merged_at := LinkedPR.merged_at pr_info;
                         LinkedPR.merged_by := LinkedPR.merged_by pr_info;
                         LinkedPR.file_changes :=
                           Some (format_file_changes (LinkedPR.number pr_info)
                                   (fetch_pr_file_changes repo
                                      (LinkedPR.number pr_info)));
                         LinkedPR.commit_messages :=
                           Some (fetch_commit_messages repo
                                   (LinkedPR.number pr_info)) |})
                   (IssueNode.linked_prs node)
          /\ IssueNode.file_changes node'
             = (IssueNode.file_changes node
                ++ map (fun pr_info =>
                          format_file_changes (LinkedPR.number pr_info)
                            (fetch_pr_file_changes repo (LinkedPR.number pr_info)))
                       (IssueNode.linked_prs node))%list
          /\ (forall x,
                In x (IssueNode.solvers node')
                <-> In x (IssueNode.solvers node)
                    \/ exists pr_info,
                         In pr_info (IssueNode.linked_prs node)
                         /\ In x (get_pr_contributors repo
                                    (LinkedPR.number pr_info)))
          /\ (forall (j : nat) (pr_info : LinkedPR.t),
                nth_error (IssueNode.linked_prs node) j = Some pr_info ->
                Repository.get_pull repo (LinkedPR.number pr_info) = Raise e ->
                nth_error (IssueNode.linked_prs node') j
                = Some {| LinkedPR.number := LinkedPR.number pr_info;
                          LinkedPR.title := LinkedPR.title pr_info;
                          LinkedPR.merged_at := LinkedPR.merged_at pr_info;
                          LinkedPR.merged_by := LinkedPR.merged_by pr_info;
                          LinkedPR.file_changes := Some "";
                          LinkedPR.commit_messages := Some "" |})
          /\ (Repository.get_issue repo (IssueNode.issue_number node) = Raise e ->
              IssueNode.title node' = IssueNode.title node
              /\ IssueNode.meta node' = IssueNode.meta node))
  /\ (forall (issue_solver_data : Dict.t IssueNode.t) (repo_name : string)
             (item : Z * IssueNode.t) (solver : string),
        In item issue_solver_data ->
        In solver (solvers_or_unknown (snd item)) ->
        exists r,
          In r (generate_csv_rows issue_solver_data repo repo_name)
          /\ Row.issue_id r = IssueNode.issue_number (snd item)
          /\ Row.contributor_id r = solver
          /\ Row.linked_pr_count r = List.length (IssueNode.linked_prs (snd item))
          /\ (Repository.get_issue repo (IssueNode.issue_number (snd item))
              = Raise e ->
              Row.issue_body r = "" /\ Row.issue_comments r = "")).
Proof.
  split; [|split; [|split; [|split; [|split; [|split]]]]].
  - intros He. unfold get_issue_details, get_issue_details_try. now rewrite He.
  - intros issue Hi Hc. unfold get_issue_details, get_issue_details_try.
    rewrite Hi. simpl. now rewrite Hc.
  - apply pull_failure_defaults.
  - intros pr Hp Hf. unfold fetch_pr_file_changes, fetch_pr_file_changes_try.
    rewrite Hp. simpl. now rewrite Hf.
  - intros pr Hp Hc.
    unfold fetch_commit_messages, fetch_commit_messages_try,
      get_pr_contributors, get_pr_contributors_try.
    rewrite Hp. simpl. rewrite Hc. now split.
  - intros issue_solver_data i key node Hnth.
    exists (enrich_issue repo node).
    destruct (enrich_issue_fields repo node) as [Hl [Hf Hs]].
    split; [|split; [|split; [|split; [|split; [|split; [|split]]]]]].
    + unfold enrich. now rewrite nth_error_map, Hnth.
    + unfold enrich. apply length_map.
    + apply enrich_issue_number.
    + exact Hl.
    + exact Hf.
    + exact Hs.
    + intros j pr_info Hj Hp. rewrite Hl, nth_error_map, Hj. cbn [option_map].
      destruct (pull_failure_defaults repo _ e Hp) as [-> [-> _]].
      reflexivity.
    + apply enrich_issue_unfetched.
  - intros issue_solver_data repo_name item solver Hin Hsolver.
    eexists. split.
    + unfold generate_csv_rows. apply in_flat_map. exists item.
      split; [exact Hin|]. unfold rows_of_issue.
      apply in_map_iff. exists solver. split; [reflexivity | exact Hsolver].
    + cbn [Row.issue_id Row.contributor_id Row.linked_pr_count
             Row.issue_body Row.issue_comments].
      split; [reflexivity|]. split; [reflexivity|]. split; [reflexivity|].
      intros He. unfold get_issue_details, get_issue_details_try.
      rewrite He. now split.
Qed.

(** At a source that answers for neither issue 3 nor pull request 11:
    the details of the issue are the defaults, and the second issue of a
    mapping is enriched although the first cannot be fetched. *)
Lemma fetch_failures_give_defaults_witness :
  get_issue_details Sample.flaky_repo 3 = IssueDetails.empty
  /\ (fetch_pr_file_changes Sample.flaky_repo 11 = []
      /\ fetch_commit_messages Sample.flaky_repo 11 = ""
      /\ get_pr_contributors Sample.flaky_repo 11 = [])
  /\ exists node',
       nth_error (build_issue_solver_data Sample.flaky_repo 500) 1
       = Some (4%Z, node')
       /\ map LinkedPR.number (IssueNode.linked_prs node') = [10%Z].
Proof.
  split; [|split].
  - exact (proj1 (fetch_failures_give_defaults Sample.flaky_repo 3
                    "502 Bad Gateway") eq_refl).
  - exact (proj1 (proj2 (proj2 (fetch_failures_give_defaults Sample.flaky_repo 11
                                  "502 Bad Gateway"))) eq_refl).
  - pose (d := invert (pr_issue_mapping (fst (scan Sample.flaky_repo 500)))).
    assert (Hnth : nth_error d 1 = Some (4%Z, snd (nth 1 d (0%Z, IssueNode.fresh 0))))
      by (vm_compute; reflexivity).
    destruct (proj1 (proj2 (proj2 (proj2 (proj2 (proj2
                (fetch_failures_give_defaults Sample.flaky_repo 3
                   "502 Bad Gateway"))))))
                d 1%nat 4%Z _ Hnth)
      as [node' [Hn [_ [_ [Hl _]]]]].
    exists node'. split; [exact Hn|].
    rewrite Hl, map_map. vm_compute. reflexivity.
Defined.

(** The mapping built from that source: the issue that cannot be fetched
    has no title, its pull request that cannot be fetched has empty
    texts, its other pull request and the next issue are complete. *)
Example build_with_failures :
  let data := build_issue_solver_data Sample.flaky_repo 500 in
  Dict.keys data = [3%Z; 4%Z]
  /\ map IssueNode.title (Dict.values data) = [None; Some "Crash on start"]
  /\ map (fun node => map LinkedPR.number (IssueNode.linked_prs node))
         (Dict.values data)
     = [[11%Z; 10%Z]; [10%Z]]
  /\ map (fun node => map LinkedPR.commit_messages (IssueNode.linked_prs node))
         (Dict.values data)
     = [[Some ""; Some "Add a test"]; [Some "Add a test"]]
  /\ map IssueNode.solvers (Dict.values data) = [["bob"]; ["bob"]]
  /\ map Row.issue_id (generate_csv_rows data Sample.flaky_repo "o/r")
     = [3%Z; 4%Z]
  /\ map Row.issue_body (generate_csv_rows data Sample.flaky_repo "o/r")
     = [""; "It crashes."].
Proof. vm_compute. repeat split; reflexivity. Qed.

(** A mapping built from a working source and flattened when the source
    has become unreachable still gives its rows. *)
Example rows_when_unreachable :
  let data := build_issue_solver_data Sample.two_solvers_repo 500 in
  let rows := generate_csv_rows data Sample.unreachable "o/r" in
  map Row.contributor_id rows = ["alice"; "bob"]
  /\ map Row.issue_body rows = [""; ""].
Proof. vm_compute. split; reflexivity. Qed.

Section Build_shape.

Context {db : Unicode}.

Local Open Scope list_scope.
Import DictFacts.

Variable repo : Repository.t.
Variable max_prs : Z.

(** An entry of the built mapping is the enrichment of a new node that
    holds stubs of pull requests kept by the scan. *)
Lemma build_node_shape (n : Z) (node : IssueNode.t) :
  In (n, node) (build_issue_solver_data repo max_prs) ->
  exists stubs,
    Forall (fun l => exists d,
              In (PrInfo.number d, d) (pr_issue_mapping (fst (scan repo max_prs)))
              /\ In n (PrInfo.referenced_issues d)
              /\ l = stub_of d)
           stubs
    /\ node = enrich_issue repo
                (IssueNode.with_linked_prs stubs (IssueNode.fresh n)).
Proof.
  unfold build_issue_solver_data, enrich. intros Hin.
  apply in_map_iff in Hin as [[k node0] [Heq Hin]]. simpl in Heq.
  injection Heq as -> <-.
  pose proof (invert_nodes_fresh _ (scan_wf repo max_prs)) as H.
  rewrite Forall_forall in H. destruct (H _ Hin) as [Hnode Hstubs].
  simpl in Hnode, Hstubs.
  exists (IssueNode.linked_prs node0). split; [exact Hstubs|].
  now rewrite <- Hnode.
Qed.

Lemma enrich_meta_new (n : Z) (stubs : list LinkedPR.t) :
  let node := enrich_meta repo (IssueNode.with_linked_prs stubs (IssueNode.fresh n)) in
  IssueNode.issue_number node = n
  /\ IssueNode.linked_prs node = stubs
  /\ IssueNode.solvers node = []
  /\ IssueNode.file_changes node = []
  /\ IssueNode.commit_messages node = ""
  /\ match Repository.get_issue repo n with
     | Ok issue =>
         IssueNode.title node = Some (Issue.title issue)
         /\ IssueNode.meta node
            = Some {| IssueMeta.labels := Issue.labels issue;
                      IssueMeta.state := Issue.state issue;
                      IssueMeta.created_at := or_default (Issue.created_at issue) "";
                      IssueMeta.closed_at := or_default (Issue.closed_at issue) "";
                      IssueMeta.opened_by := or_default (Issue.user issue) "" |}
     | Raise _ => IssueNode.title node = None /\ IssueNode.meta node = None
     end.
Proof.
  cbn zeta. unfold enrich_meta. simpl.
  destruct (Repository.get_issue repo n); simpl; auto 10.
Qed.

End Build_shape.

(** X8. Every linked pull request of an issue of the built mapping is a
    pull request kept by the scan, filed there under its own number,
    that refers to the issue; the stub carries its number, title, merge
    time and merging user, and the file-change text and commit messages
    fetched for that number. *)
Theorem build_linked_prs {db : Unicode} (repo : Repository.t) (max_prs : Z)
  (n : Z) (node : IssueNode.t) :
  In (n, node) (build_issue_solver_data repo max_prs) ->
  Forall
    (fun l => exists d,
       In (PrInfo.number d, d) (pr_issue_mapping (fst (scan repo max_prs)))
       /\ In n (PrInfo.referenced_issues d)
       /\ l = {| LinkedPR.number := PrInfo.number d;
                 LinkedPR.title := PrInfo.title d;
                 LinkedPR.merged_at := PrInfo.merged_at d;
                 LinkedPR.merged_by := PrInfo.merged_by d;
                 LinkedPR.file_changes :=
                   Some (format_file_changes (PrInfo.number d)
                           (fetch_pr_file_changes repo (PrInfo.number d)));
                 LinkedPR.commit_messages :=
                   Some (fetch_commit_messages repo (PrInfo.number d)) |})
    (IssueNode.linked_prs node).
Proof.
  intros Hin. destruct (build_node_shape repo max_prs n node Hin)
    as [stubs [Hstubs ->]].
  unfold enrich_issue. cbn [IssueNode.linked_prs].
  destruct (enrich_meta_new repo n stubs) as [_ [-> _]].
  rewrite enrich_prs_stubs. simpl. apply Forall_forall. intros l Hl.
  apply in_map_iff in Hl as [l0 [<- Hl0]].
  rewrite Forall_forall in Hstubs. destruct (Hstubs _ Hl0) as [d [Hd [Hn ->]]].
  exists d. simpl. auto.
Qed.

Lemma build_linked_prs_witness :
  let data := build_issue_solver_data Sample.dup_repo 500 in
  Forall
    (fun l => exists d,
       In (PrInfo.number d, d) (pr_issue_mapping (fst (scan Sample.dup_repo 500)))
       /\ In 5%Z (PrInfo.referenced_issues d)
       /\ l = {| LinkedPR.number := PrInfo.number d;
                 LinkedPR.title := PrInfo.title d;
                 LinkedPR.merged_at := PrInfo.merged_at d;
                 LinkedPR.merged_by := PrInfo.merged_by d;
                 LinkedPR.file_changes :=
                   Some (format_file_changes (PrInfo.number d)
                           (fetch_pr_file_changes Sample.dup_repo (PrInfo.number d)));
                 LinkedPR.commit_messages :=
                   Some (fetch_commit_messages Sample.dup_repo (PrInfo.number d)) |})
    (IssueNode.linked_prs (snd (hd (0%Z, IssueNode.fresh 0) data))).
Proof.
  intros data.
  assert (Hin : In (5%Z, snd (hd (0%Z, IssueNode.fresh 0) data)) data)
    by (vm_compute; left; reflexivity).
  exact (build_linked_prs Sample.dup_repo 500 5 _ Hin).
Defined.

(** X9. In the built mapping the list of file-change texts of an issue is
    the list of the file-change texts of its linked pull requests, in
    order, one per linked pull request even when the text is empty; its
    commit-message text is the concatenation, over its linked pull
    requests in order, of the delimiter followed by the commit messages
    of the pull request, pull requests without commit messages being
    skipped. *)
Theorem build_issue_texts {db : Unicode} (repo : Repository.t) (max_prs : Z)
  (n : Z) (node : IssueNode.t) :
  In (n, node) (build_issue_solver_data repo max_prs) ->
  IssueNode.file_changes node
  = map (fun l => or_default (LinkedPR.file_changes l) "") (IssueNode.linked_prs node)
  /\ IssueNode.commit_messages node
     = fold_right String.append ""
         (map (fun l =>
                 let msgs := or_default (LinkedPR.commit_messages l) "" in
                 if Str.truthy msgs then COMMIT_MSG_DELIMITER ++ msgs else "")
              (IssueNode.linked_prs node)).
Proof.
  intros Hin. destruct (build_node_shape repo max_prs n node Hin)
    as [stubs [_ ->]].
  unfold enrich_issue.
  cbn [IssueNode.linked_prs IssueNode.file_changes IssueNode.commit_messages].
  destruct (enrich_meta_new repo n stubs) as [_ [-> [-> [-> [-> _]]]]].
  rewrite enrich_prs_stubs, enrich_prs_file_changes, enrich_prs_commit_messages.
  cbn [acc_prs acc_file_changes acc_commit_messages app String.append].
  rewrite !map_map. split; reflexivity.
Qed.

Lemma build_issue_texts_witness :
  let data := build_issue_solver_data Sample.bar_repo 500 in
  let node := snd (hd (0%Z, IssueNode.fresh 0) data) in
  IssueNode.file_changes node
  = map (fun l => or_default (LinkedPR.file_changes l) "") (IssueNode.linked_prs node).
Proof.
  intros data node.
  assert (Hin : In (4%Z, node) data) by (vm_compute; left; reflexivity).
  exact (proj1 (build_issue_texts Sample.bar_repo 500 4 node Hin)).
Defined.

(** X10. In the built mapping the contributors of an issue have no
    duplicates, and they are exactly the contributors of its linked pull
    requests. *)
Theorem build_solvers {db : Unicode} (repo : Repository.t) (max_prs : Z)
  (n : Z) (node : IssueNode.t) :
  In (n, node) (build_issue_solver_data repo max_prs) ->
  NoDup (IssueNode.solvers node)
  /\ forall x, In x (IssueNode.solvers node)
               <-> exists l, In l (IssueNode.linked_prs node)
                             /\ In x (get_pr_contributors repo (LinkedPR.number l)).
Proof.
  intros Hin. destruct (build_node_shape repo max_prs n node Hin)
    as [stubs [_ ->]].
  unfold enrich_issue. cbn [IssueNode.linked_prs IssueNode.solvers].
  destruct (enrich_meta_new repo n stubs) as [_ [-> [-> _]]].
  rewrite enrich_prs_stubs, enrich_prs_solvers. cbn [acc_prs acc_solvers app].
  destruct (fold_set_add
              (flat_map (fun pr_info =>
                           get_pr_contributors repo (LinkedPR.number pr_info)) stubs)
              [] (NoDup_nil _)) as [Hnd Hmem].
  split; [exact Hnd|]. intros x. rewrite Hmem, in_flat_map. simpl. split.
  - intros [[l [Hl Hx]]|[]]. eexists. split; [apply in_map; exact Hl | exact Hx].
  - intros [l [Hl Hx]]. left. apply in_map_iff in Hl as [l0 [<- Hl0]].
    now exists l0.
Qed.

Lemma build_solvers_witness :
  let data := build_issue_solver_data Sample.two_solvers_repo 500 in
  NoDup (IssueNode.solvers (snd (hd (0%Z, IssueNode.fresh 0) data))).
Proof.
  intros data.
  assert (Hin : In (3%Z, snd (hd (0%Z, IssueNode.fresh 0) data)) data)
    by (vm_compute; left; reflexivity).
  exact (proj1 (build_solvers Sample.two_solvers_repo 500 3 _ Hin)).
Defined.

(** X11. An issue of the built mapping carries its own number.  When the
    issue can be fetched its title, labels, state, creation time, closing
    time and opener are those of the remote issue, missing times and a
    missing opener being the empty text; when the fetch fails the title
    stays absent and none of the other fields is set. *)
Theorem build_issue_meta {db : Unicode} (repo : Repository.t) (max_prs : Z)
  (n : Z) (node : IssueNode.t) :
  In (n, node) (build_issue_solver_data repo max_prs) ->
  IssueNode.issue_number node = n
  /\ match Repository.get_issue repo n with
     | Ok issue =>
         IssueNode.title node = Some (Issue.title issue)
         /\ IssueNode.meta node
            = Some {| IssueMeta.labels := Issue.labels issue;
                      IssueMeta.state := Issue.state issue;
                      IssueMeta.created_at := or_default (Issue.created_at issue) "";
                      IssueMeta.closed_at := or_default (Issue.closed_at issue) "";
                      IssueMeta.opened_by := or_default (Issue.user issue) "" |}
     | Raise _ => IssueNode.title node = None /\ IssueNode.meta node = None
     end.
Proof.
  intros Hin. destruct (build_node_shape repo max_prs n node Hin)
    as [stubs [_ ->]].
  unfold enrich_issue. cbn [IssueNode.issue_number IssueNode.title IssueNode.meta].
  destruct (enrich_meta_new repo n stubs) as [Hn [_ [_ [_ [_ H]]]]].
  split; [exact Hn | exact H].
Qed.

Lemma build_issue_meta_witness :
  let data := build_issue_solver_data Sample.before 500 in
  IssueNode.issue_number (snd (hd (0%Z, IssueNode.fresh 0) data)) = 42%Z.
Proof.
  intros data.
  assert (Hin : In (42%Z, snd (hd (0%Z, IssueNode.fresh 0) data)) data)
    by (vm_compute; left; reflexivity).
  exact (proj1 (build_issue_meta Sample.before 500 42 _ Hin)).
Defined.

(** ** The rows of a built mapping *)

Section Rows_more.

Context {db : Unicode}.

Local Open Scope list_scope.
Import DictFacts.

Lemma rows_of_issue_length (repo : Repository.t) (repo_name : string)
  (d : IssueNode.t) :
  List.length (rows_of_issue repo repo_name d)
  = Nat.max 1 (List.length (IssueNode.solvers d)).
Proof.
  unfold rows_of_issue, solvers_or_unknown. rewrite length_map.
  now destruct (IssueNode.solvers d).
Qed.

Lemma build_get (repo : Repository.t) (max_prs : Z) (n : Z) (node : IssueNode.t) :
  In (n, node) (build_issue_solver_data repo max_prs) ->
  exists node0,
    Dict.get n (invert (pr_issue_mapping (fst (scan repo max_prs)))) = Some node0
    /\ node = enrich_issue repo node0.
Proof.
  intros Hin. destruct (build_wf repo max_prs) as [Hnd _].
  pose proof (in_get _ n node _ Hnd Hin) as Hget.
  unfold build_issue_solver_data in Hget. rewrite enrich_get in Hget.
  destruct (Dict.get n (invert (pr_issue_mapping (fst (scan repo max_prs)))))
    as [node0|]; [|discriminate].
  injection Hget as <-. now exists node0.
Qed.

(** The accumulated text of the non-empty commit messages. *)
Lemma prefixed_concat (ms : list string) :
  fold_right String.append ""
    (map (fun m => if Str.truthy m then COMMIT_MSG_DELIMITER ++ m else "")%string ms)
  = match filter Str.truthy ms with
    | [] => ""
    | t :: ts =>
        (COMMIT_MSG_DELIMITER ++ Str.join COMMIT_MSG_DELIMITER (t :: ts))%string
    end.
Proof.
  induction ms as [|m ms IH]; [reflexivity|].
  cbn [map fold_right filter]. rewrite IH.
  destruct (Str.truthy m) eqn:Hm; [|reflexivity].
  destruct (filter Str.truthy ms) as [|t ts].
  - now rewrite str_app_nil_r.
  - change (Str.join COMMIT_MSG_DELIMITER (m :: t :: ts))
      with (m ++ COMMIT_MSG_DELIMITER ++ Str.join COMMIT_MSG_DELIMITER (t :: ts))%string.
    now rewrite str_app_assoc.
Qed.

Lemma build_commit_messages (repo : Repository.t) (max_prs : Z)
  (n : Z) (node : IssueNode.t) :
  In (n, node) (build_issue_solver_data repo max_prs) ->
  IssueNode.commit_messages node
  = fold_right String.append ""
      (map (fun m => if Str.truthy m then COMMIT_MSG_DELIMITER ++ m else "")%string
           (map (fun l => or_default (LinkedPR.commit_messages l) "")
                (IssueNode.linked_prs node))).
Proof.
  intros Hin. destruct (build_node_shape repo max_prs n node Hin)
    as [stubs [_ ->]].
  unfold enrich_issue. cbn [IssueNode.linked_prs IssueNode.commit_messages].
  destruct (enrich_meta_new repo n stubs) as [_ [-> [_ [_ [-> _]]]]].
  rewrite enrich_prs_stubs, enrich_prs_commit_messages.
  cbn [acc_prs acc_commit_messages app String.append].
  rewrite !map_map. reflexivity.
Qed.

End Rows_more.

(** X12. The issue numbers of the rows, in output order, are the issue
    numbers of the mapping in its order, each repeated max(1, number of
    contributors) times; the number of rows is the sum of these counts. *)
Theorem rows_follow_mapping_order (K : Type)
  (issue_solver_data : list (K * IssueNode.t))
  (repo : Repository.t) (repo_name : string) :
  map Row.issue_id (generate_csv_rows issue_solver_data repo repo_name)
  = flat_map (fun item =>
                repeat (IssueNode.issue_number (snd item))
                       (Nat.max 1 (List.length (IssueNode.solvers (snd item)))))
             issue_solver_data
  /\ List.length (generate_csv_rows issue_solver_data repo repo_name)
     = list_sum (map (fun item =>
                        Nat.max 1 (List.length (IssueNode.solvers (snd item))))
                     issue_solver_data).
Proof.
  unfold generate_csv_rows.
  induction issue_solver_data as [|item l [IH1 IH2]]; [split; reflexivity|].
  cbn [flat_map map]. rewrite map_app, length_app, IH1, IH2.
  rewrite rows_of_issue_length. split; [|reflexivity]. f_equal.
  rewrite <- (rows_of_issue_length repo repo_name (snd item)).
  pose proof (rows_of_issue_ids repo repo_name (snd item)) as Hids.
  induction Hids as [|r rows Hr Hrows IHr]; [reflexivity|].
  simpl. now rewrite Hr, IHr.
Qed.

(** X13. For a built mapping, the linked-PR count of the rows of an
    issue is the number of references to the issue in the pull requests
    kept by the scan, a pull request that names the issue several times
    being counted as many times. *)
Theorem linked_pr_count_counts_references {db : Unicode} (repo : Repository.t) (max_prs : Z)
  (repo' : Repository.t) (repo_name : string)
  (n : Z) (node : IssueNode.t) (r : Row.t) :
  In (n, node) (build_issue_solver_data repo max_prs) ->
  In r (rows_of_issue repo' repo_name node) ->
  Row.linked_pr_count r
  = list_sum (map (fun item =>
                     count_occ Z.eq_dec (PrInfo.referenced_issues (snd item)) n)
                  (pr_issue_mapping (fst (scan repo max_prs)))).
Proof.
  intros Hin Hr. destruct (build_get repo max_prs n node Hin) as [node0 [Hget ->]].
  unfold rows_of_issue in Hr. apply in_map_iff in Hr as [solver [<- _]].
  cbn [Row.linked_pr_count].
  rewrite <- (length_map LinkedPR.number), enrich_issue_numbers, length_map.
  rewrite <- invert_length, Hget. reflexivity.
Qed.

Lemma linked_pr_count_counts_references_witness :
  let data := build_issue_solver_data Sample.dup_repo 500 in
  let node := snd (hd (0%Z, IssueNode.fresh 0) data) in
  let r := hd_error (rows_of_issue Sample.unreachable "o/r" node) in
  option_map Row.linked_pr_count r = Some 2%nat.
Proof.
  intros data node r.
  assert (Hin : In (5%Z, node) data) by (vm_compute; left; reflexivity).
  destruct r as [row|] eqn:E; [|vm_compute in E; discriminate].
  assert (Hr : In row (rows_of_issue Sample.unreachable "o/r" node)).
  { unfold r in E. destruct (rows_of_issue Sample.unreachable "o/r" node);
      [discriminate|]. injection E as ->. now left. }
  simpl. f_equal.
  rewrite (linked_pr_count_counts_references Sample.dup_repo 500
             Sample.unreachable "o/r" 5 node row Hin Hr).
  vm_compute. reflexivity.
Defined.

(** X14. No row made from a built mapping has an empty contributor: it is
    the non-empty login of a commit author, or "unknown". *)
Theorem row_contributor_not_empty {db : Unicode} (repo : Repository.t) (max_prs : Z)
  (repo' : Repository.t) (repo_name : string) (r : Row.t) :
  In r (generate_csv_rows (build_issue_solver_data repo max_prs) repo' repo_name) ->
  Row.contributor_id r <> "".
Proof.
  unfold generate_csv_rows. intros Hin.
  apply in_flat_map in Hin as [[n node] [Hnode Hr]]. simpl in Hr.
  destruct (build_node_shape repo max_prs n node Hnode) as [stubs [_ ->]].
  unfold rows_of_issue in Hr. apply in_map_iff in Hr as [solver [<- Hs]].
  cbn [Row.contributor_id]. unfold solvers_or_unknown in Hs.
  unfold enrich_issue in Hs. cbn [IssueNode.solvers] in Hs.
  destruct (enrich_meta_new repo n stubs) as [_ [Hl [Hsol _]]].
  rewrite Hl, Hsol, enrich_prs_solvers in Hs. cbn [acc_solvers] in Hs.
  destruct (fold_set_add
              (flat_map (fun pr_info =>
                           get_pr_contributors repo (LinkedPR.number pr_info)) stubs)
              [] (NoDup_nil _)) as [_ Hmem].
  destruct (fold_left (fun s x => set_add x s)
              (flat_map (fun pr_info =>
                           get_pr_contributors repo (LinkedPR.number pr_info)) stubs)
              []) as [|x l] eqn:E.
  - destruct Hs as [<-|[]]. discriminate.
  - apply Hmem in Hs. destruct Hs as [Hs|[]].
    apply in_flat_map in Hs as [l0 [_ Hx]].
    now apply (contributors_nonempty repo (LinkedPR.number l0)).
Qed.

Lemma row_contributor_not_empty_witness :
  let data := build_issue_solver_data Sample.dup_repo 500 in
  Forall (fun r => Row.contributor_id r <> "")
         (generate_csv_rows data Sample.dup_repo "o/r").
Proof.
  intros data. apply Forall_forall. intros r Hr.
  exact (row_contributor_not_empty Sample.dup_repo 500 Sample.dup_repo "o/r" r Hr).
Defined.

(** X15. For a built mapping, when the first non-empty commit-message
    text among the linked pull requests of an issue starts with neither a
    space nor a bar, the commit messages of the rows of the issue are the
    non-empty texts of its linked pull requests joined by the delimiter;
    they are the empty text when every linked pull request has none. *)
Theorem row_commit_messages_joined {db : Unicode} (repo : Repository.t) (max_prs : Z)
  (repo' : Repository.t) (repo_name : string)
  (n : Z) (node : IssueNode.t) (r : Row.t) :
  In (n, node) (build_issue_solver_data repo max_prs) ->
  In r (rows_of_issue repo' repo_name node) ->
  match filter Str.truthy
          (map (fun l => or_default (LinkedPR.commit_messages l) "")
               (IssueNode.linked_prs node)) with
  | String c _ :: _ => Str.mem c COMMIT_MSG_DELIMITER = false
  | _ => True
  end ->
  Row.commit_messages r
  = Str.join COMMIT_MSG_DELIMITER
      (filter Str.truthy
         (map (fun l => or_default (LinkedPR.commit_messages l) "")
              (IssueNode.linked_prs node))).
Proof.
  intros Hin Hr.
  unfold rows_of_issue in Hr. apply in_map_iff in Hr as [solver [<- _]].
  cbn [Row.commit_messages].
  rewrite (build_commit_messages repo max_prs n node Hin), prefixed_concat.
  assert (Hall : Forall (fun t => Str.truthy t = true)
                   (filter Str.truthy
                      (map (fun l => or_default (LinkedPR.commit_messages l) "")
                           (IssueNode.linked_prs node)))).
  { apply Forall_forall. intros t Ht. apply filter_In in Ht. tauto. }
  destruct (filter Str.truthy
              (map (fun l => or_default (LinkedPR.commit_messages l) "")
                   (IssueNode.linked_prs node))) as [|t ts]; [reflexivity|].
  intros Hfirst. apply lstrip_delimiter.
  inversion Hall as [|? ? Ht _]; subst.
  destruct t as [|c t]; [discriminate|]. now destruct ts.
Qed.

Lemma row_commit_messages_joined_witness :
  let data := build_issue_solver_data Sample.two_solvers_repo 500 in
  let node := snd (hd (0%Z, IssueNode.fresh 0) data) in
  Forall (fun r =>
            Row.commit_messages r
            = "Guard the null case || Add a test || Review remarks || Merge branch")
         (rows_of_issue Sample.unreachable "o/r" node).
Proof.
  intros data node.
  assert (Hin : In (3%Z, node) data) by (vm_compute; left; reflexivity).
  assert (Hfirst :
    match filter Str.truthy
            (map (fun l => or_default (LinkedPR.commit_messages l) "")
                 (IssueNode.linked_prs node)) with
    | String c _ :: _ => Str.mem c COMMIT_MSG_DELIMITER = false
    | _ => True
    end) by (vm_compute; reflexivity).
  assert (Htexts :
    Str.join COMMIT_MSG_DELIMITER
      (filter Str.truthy
         (map (fun l => or_default (LinkedPR.commit_messages l) "")
              (IssueNode.linked_prs node)))
    = "Guard the null case || Add a test || Review remarks || Merge branch")
    by (vm_compute; reflexivity).
  apply Forall_forall. intros r Hr. rewrite <- Htexts.
  exact (row_commit_messages_joined Sample.two_solvers_repo 500
           Sample.unreachable "o/r" 3 node r Hin Hr Hfirst).
Defined.

(** ** Cache files *)

Section Cache_files.

Context {db : Unicode}.

Import Str.

Lemma replace_absent (c : ascii) (new s : string) :
  mem c s = false -> replace c new s = s.
Proof.
  induction s as [|d s IH]; simpl; [reflexivity|].
  rewrite Ascii.eqb_sym. intros H. apply orb_false_iff in H as [Hd Hs].
  now rewrite Hd, (IH Hs).
Qed.

Lemma replace_app (c : ascii) (new a b : string) :
  replace c new (a ++ b) = (replace c new a ++ replace c new b)%string.
Proof.
  induction a as [|d a IH]; simpl; [reflexivity|].
  rewrite IH. destruct (Ascii.eqb d c); [|reflexivity].
  now rewrite str_app_assoc.
Qed.

Lemma str_app_inv_head (a b c : string) :
  (a ++ b = a ++ c)%string -> b = c.
Proof. induction a as [|x a IH]; simpl; [auto | intros [= H]; auto]. Qed.

Lemma str_length_app (a b : string) :
  String.length (a ++ b) = (String.length a + String.length b)%nat.
Proof. induction a as [|x a IH]; simpl; [reflexivity | now rewrite IH]. Qed.

Lemma str_app_inv_tail (a b c : string) :
  (a ++ c = b ++ c)%string -> a = b.
Proof.
  revert b. induction a as [|x a IH]; intros [|y b]; simpl; auto.
  - intros H. apply (f_equal String.length) in H. simpl in H.
    rewrite str_length_app in H. lia.
  - intros H. apply (f_equal String.length) in H. simpl in H.
    rewrite str_length_app in H. lia.
  - intros [= -> H]. f_equal. now apply IH.
Qed.

(** Two texts cut at the first occurrence of a character. *)
Lemma split_at_first (c : ascii) (a a' b b' : string) :
  mem c a = false -> mem c a' = false ->
  (a ++ String c b = a' ++ String c b')%string -> a = a' /\ b = b'.
Proof.
  revert a'. induction a as [|x a IH]; intros [|y a']; simpl.
  - intros _ _ [= ->]. now split.
  - intros _ H [= <- _]. rewrite Ascii.eqb_refl in H. discriminate.
  - intros H _ [= -> _]. rewrite Ascii.eqb_refl in H. discriminate.
  - intros Ha Ha' [= -> H].
    apply orb_false_iff in Ha as [_ Ha]. apply orb_false_iff in Ha' as [_ Ha'].
    destruct (IH a' Ha Ha' H) as [-> ->]. now split.
Qed.

Lemma sanitize_full_name (owner repo : string) :
  mem "/" owner = false -> mem "/" repo = false ->
  sanitize_repo_name (owner ++ "/" ++ repo) = (owner ++ "_" ++ repo)%string.
Proof.
  intros Ho Hr. unfold sanitize_repo_name.
  rewrite !replace_app, (replace_absent _ _ _ Ho), (replace_absent _ _ _ Hr).
  reflexivity.
Qed.

Lemma cache_file_inj (a b : string) :
  cache_file a = cache_file b -> sanitize_repo_name a = sanitize_repo_name b.
Proof.
  unfold cache_file. intros H.
  do 3 apply str_app_inv_head in H. now apply str_app_inv_tail in H.
Qed.

End Cache_files.

(** X16. The sanitized name of a repository has the length of the name
    and holds no slash, so the cache file of a repository lies directly
    in the cache directory. *)
Theorem sanitized_name_has_no_slash (repo_name : string) :
  Str.mem "/" (sanitize_repo_name repo_name) = false
  /\ String.length (sanitize_repo_name repo_name) = String.length repo_name
  /\ cache_file repo_name
     = "cache/issue_solver_data_" ++ sanitize_repo_name repo_name ++ ".json".
Proof.
  unfold sanitize_repo_name. split; [now apply mem_replace|].
  split; [|reflexivity].
  induction repo_name as [|c s IH]; simpl; [reflexivity|].
  destruct (Ascii.eqb c "/"); simpl; now rewrite IH.
Qed.

(** X17. Two names "owner/repository" whose owners hold neither a slash
    nor an underscore and whose repository names hold no slash have the
    same cache file only when they are the same name. *)
Theorem cache_file_of_distinct_names (owner repo owner' repo' : string) :
  Str.mem "/" owner = false -> Str.mem "_" owner = false ->
  Str.mem "/" owner' = false -> Str.mem "_" owner' = false ->
  Str.mem "/" repo = false -> Str.mem "/" repo' = false ->
  cache_file (owner ++ "/" ++ repo) = cache_file (owner' ++ "/" ++ repo') ->
  owner = owner' /\ repo = repo'.
Proof.
  intros Ho1 Ho2 Ho1' Ho2' Hr Hr' H. apply cache_file_inj in H.
  rewrite (sanitize_full_name owner repo Ho1 Hr) in H.
  rewrite (sanitize_full_name owner' repo' Ho1' Hr') in H.
  now apply (split_at_first "_" owner owner' repo repo').
Qed.

Lemma cache_file_of_distinct_names_witness :
  "numpy" = "numpy" /\ "numpy" = "numpy".
Proof.
  apply (cache_file_of_distinct_names "numpy" "numpy" "numpy" "numpy");
    reflexivity.
Defined.

(** X18. A name with an underscore in the owner shares its cache file
    with the name obtained by exchanging that underscore and the slash:
    "a_b/c" and "a/b_c" are cached in the same file. *)
Theorem cache_file_shared (a b c : string) :
  cache_file (a ++ "_" ++ b ++ "/" ++ c) = cache_file (a ++ "/" ++ b ++ "_" ++ c).
Proof.
  unfold cache_file, sanitize_repo_name. do 3 f_equal.
  rewrite !replace_app. reflexivity.
Qed.

(** ** Flattening what the cache holds *)

Section Flatten_values.

Context {db : Unicode}.

Local Open Scope list_scope.

Variable repo : Repository.t.
Variable repo_name : string.

Lemma all_str_strings (l : list string) : Py.all_str (map VStr l) = Ok l.
Proof. induction l as [|x l IH]; simpl; [reflexivity | now rewrite IH]. Qed.

Lemma join_strings (sep : string) (l : list string) :
  Py.join sep (of_strings l) = Ok (Str.join sep l).
Proof. unfold Py.join, of_strings. simpl. now rewrite all_str_strings. Qed.

Lemma truthy_strings (l : list string) :
  Py.truthy (of_strings l) = match l with [] => false | _ :: _ => true end.
Proof. now destruct l. Qed.

(** On the dictionary of an issue the flattening of values gives the
    rows of the typed flattening. *)
Lemma rows_of_value_node (n : IssueNode.t) :
  rows_of_value repo repo_name (issue_node_value n)
  = Ok (map row_value (rows_of_issue repo repo_name n)).
Proof.
  unfold rows_of_value, rows_of_issue, issue_node_value, meta_get, labels_get,
    solvers_or_unknown.
  destruct (IssueNode.meta n) as [m|];
    cbn [Py.get app lookup key_eqb String.eqb Ascii.eqb Bool.eqb bind Py.len];
    rewrite !join_strings; cbn [bind Py.lstrip];
    rewrite !truthy_strings.
  - destruct (IssueNode.solvers n) as [|x l] eqn:Hs;
      destruct (IssueMeta.labels m) as [|y ls] eqn:Hl;
      cbn [bind Py.iter of_strings get_issue_details_value];
      rewrite ?all_str_strings, ?length_map; cbn [bind];
      rewrite ?map_map; try rewrite Hl; reflexivity.
  - destruct (IssueNode.solvers n) as [|x l] eqn:Hs;
      cbn [bind Py.iter of_strings get_issue_details_value Py.truthy map];
      rewrite ?length_map; rewrite ?map_map; reflexivity.
Qed.

Lemma collect_rows_nodes (f : Z -> key) (d : Dict.t IssueNode.t) :
  collect_rows repo repo_name
    (map (fun item => (f (fst item), issue_node_value (snd item))) d)
  = Ok (map row_value (generate_csv_rows d repo repo_name)).
Proof.
  unfold generate_csv_rows.
  induction d as [|[k n] d IH]; [reflexivity|].
  cbn [map collect_rows fst snd flat_map].
  rewrite rows_of_value_node, IH. cbn [bind]. now rewrite map_app.
Qed.

Lemma flatten_built (d : Dict.t IssueNode.t) :
  generate_csv_rows_value (issue_map_value d) repo repo_name
  = Ok (map row_value (generate_csv_rows d repo repo_name)).
Proof.
  unfold generate_csv_rows_value, issue_map_value. cbn [Py.items bind].
  apply collect_rows_nodes.
Qed.

Lemma flatten_reloaded (d : Dict.t IssueNode.t) :
  generate_csv_rows_value (load (dump (issue_map_value d))) repo repo_name
  = Ok (map row_value (generate_csv_rows d repo repo_name)).
Proof.
  change (load (dump (issue_map_value d))) with (cache_round_trip d).
  rewrite cache_round_trip_str.
  unfold generate_csv_rows_value, issue_map_value_str. cbn [Py.items bind].
  apply (collect_rows_nodes (fun k => KStr (Str.of_Z k))).
Qed.

End Flatten_values.

(** X19. Flattening the mapping read back from the cache gives the rows
    that flattening the built mapping gives: the same rows in the same
    order, whatever the type of the keys. *)
Theorem cached_mapping_gives_same_rows (d : Dict.t IssueNode.t)
  (repo : Repository.t) (repo_name : string) :
  generate_csv_rows_value (issue_map_value d) repo repo_name
  = Ok (map row_value (generate_csv_rows d repo repo_name))
  /\ generate_csv_rows_value (cache_round_trip d) repo repo_name
     = Ok (map row_value (generate_csv_rows d repo repo_name)).
Proof.
  split.
  - unfold generate_csv_rows_value, issue_map_value. cbn [Py.items bind].
    apply collect_rows_nodes.
  - rewrite cache_round_trip_str.
    unfold generate_csv_rows_value, issue_map_value_str. cbn [Py.items bind].
    apply (collect_rows_nodes repo repo_name (fun k => KStr (Str.of_Z k))).
Qed.

(** ** The pipeline *)

Section Pipeline.

Context {db : Unicode}.

Local Open Scope list_scope.

Variable gh : github.

Lemma file_get_put_same (path : string) (doc : json) (fs : files) :
  file_get path (file_put path doc fs) = Some doc.
Proof.
  induction fs as [|[p old] fs IH]; simpl.
  - now rewrite String.eqb_refl.
  - destruct (String.eqb path p) eqn:E; simpl; rewrite E; auto.
Qed.

Lemma file_get_put_kept (path p : string) (doc old : json) (fs : files) :
  file_get path fs = None -> file_get p fs = Some old ->
  file_get p (file_put path doc fs) = Some old.
Proof.
  induction fs as [|[q d] fs IH]; simpl; [discriminate|].
  destruct (String.eqb path q) eqn:E; [discriminate|].
  intros Hnone Hsome. simpl. destruct (String.eqb p q); auto.
Qed.

(** An iteration leaves the files that exist as they are. *)
Lemma main_repo_keeps (fs : files) (repo_name p : string) (doc : json) :
  file_get p fs = Some doc ->
  file_get p (fst (main_repo gh fs repo_name)) = Some doc.
Proof.
  intros H. unfold main_repo, load_or_build.
  destruct (file_get (cache_file repo_name) fs) eqn:E; [exact H|].
  destruct (gh repo_name); [|exact H].
  simpl. now apply file_get_put_kept.
Qed.

(** The loop from any state of the rows. *)
Lemma main_fold_rows (names : list string) (fs : files) (rows : list RowV.t) :
  fold_left
    (fun state repo_name =>
       let (fs', r) := main_repo gh (fst state) repo_name in
       (fs', snd state ++ r))
    names (fs, rows)
  = (fst (main_loop gh names fs), rows ++ snd (main_loop gh names fs)).
Proof.
  unfold main_loop. revert fs rows.
  induction names as [|name names IH]; intros fs rows.
  - simpl. now rewrite app_nil_r.
  - cbn [fold_left fst snd].
    destruct (main_repo gh fs name) as [fs1 r1].
    rewrite IH. rewrite (IH fs1 ([] ++ r1)). cbn [fst snd app].
    now rewrite app_assoc.
Qed.

Lemma main_loop_cons (name : string) (names : list string) (fs : files) :
  main_loop gh (name :: names) fs
  = (fst (main_loop gh names (fst (main_repo gh fs name))),
     snd (main_repo gh fs name)
     ++ snd (main_loop gh names (fst (main_repo gh fs name)))).
Proof.
  unfold main_loop at 1. cbn [fold_left fst snd].
  destruct (main_repo gh fs name) as [fs1 r1]. cbn [app fst snd].
  apply main_fold_rows.
Qed.


End Pipeline.

(** X20. For a repository that has no cache file and can be accessed,
    an iteration of the pipeline writes the built mapping to the cache
    file of the repository and adds the rows of the built mapping. *)
Theorem first_run_builds_and_caches {db : Unicode} (gh : github) (fs : files)
  (repo_name : string) (repo : Repository.t) :
  file_get (cache_file repo_name) fs = None ->
  gh repo_name = Ok repo ->
  let data := build_issue_solver_data repo MAX_PRS in
  main_repo gh fs repo_name
  = (file_put (cache_file repo_name) (dump (issue_map_value data)) fs,
     map row_value (generate_csv_rows data repo repo_name))
  /\ file_get (cache_file repo_name) (fst (main_repo gh fs repo_name))
     = Some (dump (issue_map_value data)).
Proof.
  intros Hnone Hgh data.
  assert (H : main_repo gh fs repo_name
              = (file_put (cache_file repo_name) (dump (issue_map_value data)) fs,
                 map row_value (generate_csv_rows data repo repo_name))).
  { unfold main_repo, load_or_build. rewrite Hnone, Hgh. cbn [bind].
    fold data.
    now rewrite flatten_built. }
  split; [exact H|]. rewrite H. apply file_get_put_same.
Qed.

Lemma first_run_builds_and_caches_witness :
  let gh := fun _ : string => Ok Sample.two_solvers_repo in
  map RowV.contributor_id (snd (main_repo gh [] "o/r"))
  = [VStr "alice"; VStr "bob"].
Proof.
  intros gh.
  destruct (first_run_builds_and_caches gh [] "o/r" Sample.two_solvers_repo
              eq_refl eq_refl) as [H _].
  rewrite H. vm_compute. reflexivity.
Defined.

(** X21. When the cache file of a repository holds a mapping written by
    an earlier run, an iteration leaves the files as they are and adds
    the rows of that mapping, made with the issue details of the
    repository as it is now; the pull requests of the repository are not
    looked at, so two repositories that answer alike for issues give the
    same rows. *)
Theorem cached_run_reuses_mapping {db : Unicode} (gh : github) (fs : files)
  (repo_name : string) (repo : Repository.t) (d : Dict.t IssueNode.t) :
  file_get (cache_file repo_name) fs = Some (dump (issue_map_value d)) ->
  gh repo_name = Ok repo ->
  main_repo gh fs repo_name
  = (fs, map row_value (generate_csv_rows d repo repo_name))
  /\ forall repo' : Repository.t,
       (forall n, Repository.get_issue repo' n = Repository.get_issue repo n) ->
       generate_csv_rows d repo' repo_name = generate_csv_rows d repo repo_name.
Proof.
  intros Hfile Hgh. split.
  - unfold main_repo, load_or_build. rewrite Hfile, Hgh. cbn [bind].
    now rewrite flatten_reloaded.
  - intros repo' Hsame. unfold generate_csv_rows.
    apply flat_map_ext. intros item.
    unfold rows_of_issue, get_issue_details, get_issue_details_try.
    now rewrite Hsame.
Qed.

Lemma cached_run_reuses_mapping_witness :
  let d := build_issue_solver_data Sample.before 500 in
  let fs := [(cache_file "o/r", dump (issue_map_value d))] in
  let gh := fun _ : string => Ok Sample.after in
  main_repo gh fs "o/r" = (fs, map row_value (generate_csv_rows d Sample.after "o/r")).
Proof.
  intros d fs gh.
  assert (Hfile : file_get (cache_file "o/r") fs = Some (dump (issue_map_value d))).
  { unfold fs. cbn [file_get]. now rewrite String.eqb_refl. }
  exact (proj1 (cached_run_reuses_mapping gh fs "o/r" Sample.after d Hfile eq_refl)).
Defined.





(** X24. A cache file that exists is never written again: after a run
    over any list of repositories it holds the document it held. *)
Theorem cache_file_never_rewritten {db : Unicode} (gh : github) (names : list string)
  (fs : files) (path : string) (doc : json) :
  file_get path fs = Some doc ->
  file_get path (fst (main_loop gh names fs)) = Some doc.
Proof.
  revert fs. induction names as [|name names IH]; intros fs H; [exact H|].
  rewrite main_loop_cons. cbn [fst]. apply IH. now apply main_repo_keeps.
Qed.

Lemma cache_file_never_rewritten_witness :
  let gh := fun _ : string => Ok Sample.dup_repo in
  file_get (cache_file "o/r") (fst (main_loop gh ["o/r"; "p/q"] [(cache_file "o/r", JNull)]))
  = Some JNull.
Proof.
  intros gh.
  apply (cache_file_never_rewritten gh ["o/r"; "p/q"] [(cache_file "o/r", JNull)]).
  cbn [file_get]. now rewrite String.eqb_refl.
Defined.



Section Flatten_errors.

Context {db : Unicode}.

Local Open Scope list_scope.


End Flatten_errors.



Section Cache_lookup.

Context {db : Unicode}.

Local Open Scope list_scope.

(** [str] is one-to-one on the integers. *)
Lemma of_Z_inj (a b : Z) : Str.of_Z a = Str.of_Z b -> a = b.
Proof.
  unfold Str.of_Z. intros H.
  assert (Hok : forall z, NilZero.int_of_string (NilZero.string_of_int (Z.to_int z))
                          = Some (Z.to_int z)).
  { intros z. apply NilZero.isi; destruct z; simpl; try discriminate;
      intros [= Hz]; now apply (Unsigned.to_uint_nonnil p). }
  apply DecimalZ.to_int_inj.
  assert (Hs : Some (Z.to_int a) = Some (Z.to_int b))
    by (rewrite <- !Hok; now rewrite H).
  now injection Hs.
Qed.

Lemma lookup_text (d : Dict.t IssueNode.t) (k : Z) (node : IssueNode.t) :
  NoDup (Dict.keys d) -> In (k, node) d ->
  lookup (KStr (Str.of_Z k))
         (map (fun item => (KStr (Str.of_Z (fst item)), issue_node_value (snd item))) d)
  = Some (issue_node_value node).
Proof.
  induction d as [|[k0 n0] d IH]; simpl; [tauto|].
  intros Hnd [Heq|Hin].
  - injection Heq as -> ->. now rewrite String.eqb_refl.
  - inversion Hnd as [|? ? Hnotin Hnd']; subst.
    destruct (String.eqb_spec (Str.of_Z k) (Str.of_Z k0)) as [Heq|Hne].
    + apply of_Z_inj in Heq. subst k0. exfalso. apply Hnotin.
      change (In (fst (k, node)) (map fst d)). now apply in_map.
    + now apply IH.
Qed.

Lemma lookup_int (d : Dict.t IssueNode.t) (k : Z) :
  lookup (KInt k)
         (map (fun item => (KStr (Str.of_Z (fst item)), issue_node_value (snd item))) d)
  = None.
Proof. induction d as [|[k0 n0] d IH]; simpl; [reflexivity | exact IH]. Qed.

End Cache_lookup.

(** X27. In the mapping read back from the cache the dictionary of every
    issue is found, unchanged, under the decimal text of its number, and
    nothing is found under the number itself. *)
Theorem cached_issue_found_by_text (d : Dict.t IssueNode.t) (k : Z)
  (node : IssueNode.t) :
  NoDup (Dict.keys d) -> In (k, node) d ->
  exists kv,
    cache_round_trip d = VDict kv
    /\ lookup (KStr (Str.of_Z k)) kv = Some (issue_node_value node)
    /\ lookup (KInt k) kv = None.
Proof.
  intros Hnd Hin. rewrite cache_round_trip_str. unfold issue_map_value_str.
  eexists. split; [reflexivity|]. split.
  - now apply lookup_text.
  - apply lookup_int.
Qed.

Lemma cached_issue_found_by_text_witness :
  let d := build_issue_solver_data Sample.before 500 in
  exists kv,
    cache_round_trip d = VDict kv
    /\ lookup (KStr (Str.of_Z 42)) kv
       = Some (issue_node_value (snd (hd (0%Z, IssueNode.fresh 0) d)))
    /\ lookup (KInt 42) kv = None.
Proof.
  intros d.
  apply (cached_issue_found_by_text d 42 (snd (hd (0%Z, IssueNode.fresh 0) d))).
  - destruct (build_wf Sample.before 500) as [H _]. exact H.
  - vm_compute. left. reflexivity.
Defined.

(** ** The sentinel of the patches *)

(** X28. The rewriting of a patch loses information: a patch that holds
    the text "|;|" where another holds a line feed gives the same entry,
    so the line structure of a patch cannot always be read back. *)
Theorem sentinel_is_ambiguous (f f' : File.t) (a b : string) :
  File.patch f = Some (a ++ String LF b) ->
  File.patch f' = Some (a ++ PATCH_NEWLINE_DELIMITER ++ b) ->
  FileChange.patch (file_change_of f) = FileChange.patch (file_change_of f').
Proof.
  intros H H'. unfold file_change_of. cbn [FileChange.patch]. rewrite H, H'.
  assert (Hempty : forall s : string,
             Str.truthy s = false -> Str.replace LF PATCH_NEWLINE_DELIMITER s = "").
  { intros s Hs. destruct s; [reflexivity | discriminate]. }
  assert (Hrep : forall s : string,
             (if Str.truthy s then Str.replace LF PATCH_NEWLINE_DELIMITER s else "")
             = Str.replace LF PATCH_NEWLINE_DELIMITER s).
  { intros s. destruct (Str.truthy s) eqn:E; [reflexivity|]. now rewrite Hempty. }
  rewrite !Hrep, !replace_app. reflexivity.
Qed.

Lemma sentinel_is_ambiguous_witness :
  FileChange.patch
    (file_change_of (File.mk "a.txt" 1 0 1 "added" (Some ("+x" ++ String LF "+y"))))
  = FileChange.patch
      (file_change_of (File.mk "a.txt" 1 0 1 "added" (Some "+x|;|+y"))).
Proof.
  exact (sentinel_is_ambiguous
           (File.mk "a.txt" 1 0 1 "added" (Some ("+x" ++ String LF "+y")))
           (File.mk "a.txt" 1 0 1 "added" (Some "+x|;|+y"))
           "+x" "+y" eq_refl eq_refl).
Defined.

(** ** The order of the issues *)

Section Key_order.

Context {db : Unicode}.

Local Open Scope list_scope.
Import DictFacts.

Lemma mem_keys (isd : Dict.t IssueNode.t) (n : Z) :
  Dict.mem n isd = existsb (Z.eqb n) (Dict.keys isd).
Proof.
  unfold Dict.mem. induction isd as [|[k v] isd IH]; simpl; [reflexivity|].
  destruct (n =? k)%Z; [reflexivity | exact IH].
Qed.

Lemma add_link_key_order (d : PrInfo.t) (isd : Dict.t IssueNode.t) (n : Z) :
  Dict.keys (add_link d isd n) = add_key (Dict.keys isd) n.
Proof.
  unfold add_link, add_key. rewrite keys_update, <- mem_keys.
  destruct (Dict.mem n isd) eqn:E; [reflexivity|].
  rewrite keys_set. now rewrite E.
Qed.

Lemma fold_add_links_key_order (m : Dict.t PrInfo.t) (isd : Dict.t IssueNode.t) :
  Dict.keys (fold_left add_links m isd)
  = fold_left add_key
      (flat_map (fun item => PrInfo.referenced_issues (snd item)) m)
      (Dict.keys isd).
Proof.
  revert isd. induction m as [|item m IH]; intros isd; [reflexivity|].
  cbn [fold_left flat_map]. rewrite IH, fold_left_app. f_equal.
  unfold add_links. generalize (PrInfo.referenced_issues (snd item)) as refs.
  intros refs. revert isd. induction refs as [|r refs IHr]; intros isd; [reflexivity|].
  cbn [fold_left]. now rewrite IHr, add_link_key_order.
Qed.

End Key_order.

(** X29. The keys of the inverted mapping, and of the mapping returned
    by [build_issue_solver_data], are the referenced issue numbers, each
    once, in the order in which they are first met when the pull requests
    kept by the scan are taken in order and the references of each in
    order. *)
Theorem issues_in_reference_order {db : Unicode} (repo : Repository.t) (max_prs : Z) :
  let mapping := pr_issue_mapping (fst (scan repo max_prs)) in
  let references :=
    flat_map (fun item => PrInfo.referenced_issues (snd item)) mapping in
  Dict.keys (invert mapping) = first_occurrences references
  /\ Dict.keys (build_issue_solver_data repo max_prs) = first_occurrences references.
Proof.
  cbn zeta. unfold build_issue_solver_data. rewrite enrich_keys.
  unfold invert, first_occurrences. rewrite fold_add_links_key_order.
  split; reflexivity.
Qed.

Example issues_in_reference_order_sample :
  let repo := Sample.repo [Sample.merged_pr 9 "fixes #7 and closes #3";
                           Sample.unmerged_pr 8;
                           Sample.merged_pr 6 "issue #3, resolves #5, fixes #7"]
                          "open" in
  Dict.keys (build_issue_solver_data repo 500) = [7%Z; 3%Z; 5%Z].
Proof. vm_compute. reflexivity. Qed.
